(** * searchengine: the tag query engine, result projection and 3D viewer
    of [search.js], embedded in Rocq.

    JavaScript strings are sequences of UTF-16 code units; a code unit is
    modelled as an [N] and a string as a [list N].  The built-ins the
    program calls on strings ([split] on [/\s+/], [includes], [join],
    [trim], [replace] with a global one-character pattern) are written
    out on code units.  [String.prototype.toLowerCase] depends on the
    Unicode case tables of the host: the search engine is developed in a
    Section that takes it as a variable. *)

From Stdlib Require Import NArith List String Ascii Bool Lia.
From stdpp Require Import base option list countable gmap.
Import ListNotations.

Abbreviation jsstring := (list N).

(** ** String built-ins *)

Module Js.

(** A literal of the source, read as code units.  In the literals of this
    file a backquote stands for the double quote of the source (backquotes
    delimit the template literals of [search.js], so none occurs inside
    one). *)
Fixpoint js (s : string) : jsstring :=
  match s with
  | EmptyString => []
  | String a rest =>
      (if Ascii.eqb a "`"%char then 34%N else N_of_ascii a) :: js rest
  end.

Arguments js : simpl never.

(** [!s] for a string: only the empty string is falsy. *)
Definition falsy (s : jsstring) : bool :=
  match s with
  | [] => true
  | _ :: _ => false
  end.

(** [a === b] on strings. *)
Fixpoint strictEq (a b : jsstring) : bool :=
  match a, b with
  | [], [] => true
  | x :: a', y :: b' => N.eqb x y && strictEq a' b'
  | _, _ => false
  end.

(** The class [\s] of a regular expression without the [u] flag, which is
    also the set [trim] strips: WhiteSpace and LineTerminator. *)
Definition isWhiteSpace (c : N) : bool :=
  match c with
  | 9 | 10 | 11 | 12 | 13 | 32 | 160 => true
  | 5760 | 8232 | 8233 | 8239 | 8287 | 12288 | 65279 => true
  | _ => N.leb 8192 c && N.leb c 8202
  end%N.

(** [s.split(/\s+/)]: the pieces between maximal runs of white space.  A
    run at either end of the string leaves an empty piece there, and the
    empty string splits into one empty piece.  [cur] holds the piece being
    read, reversed; [inRun] says that the previous code unit was white
    space. *)
Fixpoint splitWs (inRun : bool) (cur : jsstring) (s : jsstring)
  : list jsstring :=
  match s with
  | [] => [rev cur]
  | c :: rest =>
      if isWhiteSpace c then
        if inRun then splitWs true [] rest
        else rev cur :: splitWs true [] rest
      else splitWs false (c :: cur) rest
  end.

Definition split_ws (s : jsstring) : list jsstring := splitWs false [] s.

(** [t] read at the start of [s]. *)
Fixpoint startsWith (s t : jsstring) : bool :=
  match t, s with
  | [], _ => true
  | y :: t', x :: s' => N.eqb x y && startsWith s' t'
  | _ :: _, [] => false
  end.

(** [s.includes(t)]. *)
Fixpoint includes (s t : jsstring) : bool :=
  startsWith s t ||
  match s with
  | [] => false
  | _ :: s' => includes s' t
  end.

(** [parts.join(sep)]. *)
Fixpoint join (sep : jsstring) (parts : list jsstring) : jsstring :=
  match parts with
  | [] => []
  | [p] => p
  | p :: rest => p ++ sep ++ join sep rest
  end.

Fixpoint trimStart (s : jsstring) : jsstring :=
  match s with
  | [] => []
  | c :: rest => if isWhiteSpace c then trimStart rest else s
  end.

(** [s.trim()]. *)
Definition trim (s : jsstring) : jsstring :=
  rev (trimStart (rev (trimStart s))).

(** [s.replace(/c/g, r)] for a one-character pattern. *)
Definition replaceAll (c : N) (r : jsstring) (s : jsstring) : jsstring :=
  flat_map (fun x => if N.eqb x c then r else [x]) s.

(** [a || b] where [a] may be [undefined] or a string. *)
Definition orElse (a : option jsstring) (b : jsstring) : jsstring :=
  match a with
  | Some s => if falsy s then b else s
  | None => b
  end.

(** [`${v}`] for a property that may be absent. *)
Definition interp (v : option jsstring) : jsstring :=
  match v with
  | Some s => s
  | None => js "undefined"
  end.

End Js.
Import Js.

(** ** Data model: the parsed [data/tags.json] *)

Record TagEntry := mkTag { tag : jsstring; confidence : jsstring }.

(** A value of [fileData.files].  [color] and [thumbnail] are optional
    properties; [confidence] holds the text the value prints as. *)
Record FileEntry := mkFile {
  type : jsstring;
  tags : list TagEntry;
  color : option jsstring;
  thumbnail : option jsstring
}.

(** A parsed document, taken to have the shape [{ files: { ... } }] of
    the corpus.  [files] is [Object.entries(fileData.files)]: the entries
    in the iteration order of the object, one for each path. *)
Record FileData := mkData { files : list (jsstring * FileEntry) }.

(** [{ path, ...file }] *)
Record Result := mkResult { path : jsstring; entry : FileEntry }.

(** ** The query engine *)

Section Search.

Variable toLowerCase : jsstring -> jsstring.

(** The callback of [searchTerms.every]. *)
Definition termMatches (file : FileEntry) (term : jsstring) : bool :=
  existsb
    (fun tagObj =>
       let tagText := toLowerCase (tag tagObj) in
       includes tagText term
       || includes
            (join (js " ") (map (fun t => toLowerCase (tag t)) (tags file)))
            term)
    (tags file).

Definition searchFiles (fileData : option FileData) (query : jsstring)
  : list Result :=
  match fileData with
  | None => []
  | Some data =>
      if falsy query then []
      else
        let query := toLowerCase query in
        let searchTerms := split_ws query in
        fold_left
          (fun results '(path, file) =>
             let hasAllTerms := forallb (termMatches file) searchTerms in
             if hasAllTerms then results ++ [mkResult path file]
             else results)
          (files data) []
  end.

(** The [input] listener of the search box, up to the rendering of the
    results. *)
Definition onSearchInput (fileData : option FileData) (value : jsstring)
  : list Result :=
  let query := trim value in
  searchFiles fileData query.

End Search.

(** ** Result projection *)

(** A line break of a template literal followed by its indentation. *)
Definition nl (indent : nat) : jsstring := 10%N :: repeat 32%N indent.

Arguments nl : simpl never.

Definition escapeHtml (unsafe : jsstring) : jsstring :=
  replaceAll 39 (js "&#039;")
    (replaceAll 34 (js "&quot;")
       (replaceAll 62 (js "&gt;")
          (replaceAll 60 (js "&lt;")
             (replaceAll 38 (js "&amp;") unsafe)))).

(** The properties of the object literal [colorMap], as written. *)
Definition colorTable : list (jsstring * jsstring) :=
  [ (js "red", js "#FF0000");
    (js "green", js "#008000");
    (js "blue", js "#0000FF");
    (js "black", js "#000000");
    (js "white", js "#FFFFFF");
    (js "yellow", js "#FFFF00");
    (js "purple", js "#800080");
    (js "orange", js "#FFA500");
    (js "brown", js "#A52A2A");
    (js "pink", js "#FFC0CB");
    (js "gray", js "#808080");
    (js "unknown", js "#CCCCCC") ].

(** The names every object inherits from [Object.prototype]. *)
Definition objectPrototypeNames : list jsstring :=
  [ js "constructor"; js "toString"; js "toLocaleString"; js "valueOf";
    js "hasOwnProperty"; js "isPrototypeOf"; js "propertyIsEnumerable";
    js "__proto__"; js "__defineGetter__"; js "__defineSetter__";
    js "__lookupGetter__"; js "__lookupSetter__" ].

(** [name] is one of the inherited names: [object[name]] then finds the
    inherited value, whatever the object's own properties. *)
Definition inherited (name : jsstring) : bool :=
  existsb (strictEq name) objectPrototypeNames.

(** [colorMap], used as a map from colour names.  Objects used as maps
    ([colorMap], [fileContents]) are modelled as finite maps of their own
    properties, which is what a lookup finds under every name that is not
    [inherited]; what is stated of a lookup under an arbitrary colour name
    carries that hypothesis, and corpus paths are taken not to be
    inherited names. *)
Definition colorMap : gmap jsstring jsstring := list_to_map colorTable.

(** [colorMap[result.color] || result.color], as the template prints it. *)
Definition colorSwatch (color : option jsstring) : jsstring :=
  match color with
  | Some name => orElse (colorMap !! name) name
  | None => js "undefined"
  end.

(** [if (v)] for a property that may be absent. *)
Definition truthy (v : option jsstring) : bool :=
  match v with
  | Some s => negb (falsy s)
  | None => false
  end.

Definition modelIconPath : jsstring :=
  js "M12,0L3,7L4,8.18V16.18L12,21L20,16.18V8.18L21,7L12,0M12,2.5L17.5,6.5L12,10.5L6.5,6.5L12,2.5M5,9.21V15.07L11,19V13.35L5,9.21M19,9.21L13,13.35V19L19,15.07V9.21Z".

Definition getFilePreview (fileContents : gmap jsstring jsstring)
    (result : Result) : jsstring :=
  let file := entry result in
  if strictEq (type file) (js "image") then
    js "<img src=`data/" ++ path result ++ js "` alt=`" ++ path result
      ++ js "`>"
  else if strictEq (type file) (js "text") then
    let content := orElse (fileContents !! path result) (js "Loading...") in
    js "<div class=`text-content`>" ++ escapeHtml content ++ js "</div>"
  else if strictEq (type file) (js "3d") then
    if truthy (thumbnail file) then
      js "<div class=`model-placeholder`>" ++ nl 24
        ++ js "<img src=`data/" ++ interp (thumbnail file) ++ js "` alt=`"
        ++ path result ++ js "` class=`model-thumbnail`>" ++ nl 20
        ++ js "</div>"
    else
      js "<div class=`model-placeholder`>" ++ nl 24
        ++ js "<div class=`model-icon`>" ++ nl 28
        ++ js "<svg width=`64` height=`64` viewBox=`0 0 24 24`>" ++ nl 32
        ++ js "<path fill=`#666` d=`" ++ modelIconPath ++ js "`/>" ++ nl 28
        ++ js "</svg>" ++ nl 24
        ++ js "</div>" ++ nl 24
        ++ js "<div>3D Model Preview</div>" ++ nl 20
        ++ js "</div>"
  else [].

(** The template of one tag of a result. *)
Definition tagSpan (t : TagEntry) : jsstring :=
  js "<span class=`tag`>" ++ tag t ++ js " (" ++ confidence t
    ++ js ")</span>".

(** The template [displayResults] maps over the results. *)
Definition resultCard (fileContents : gmap jsstring jsstring)
    (result : Result) : jsstring :=
  let file := entry result in
  nl 8 ++ js "<div class=`result-item`>" ++ nl 12
    ++ js "<div class=`file-preview`>" ++ nl 16
    ++ getFilePreview fileContents result ++ nl 12
    ++ js "</div>" ++ nl 12
    ++ js "<div class=`result-info`>" ++ nl 16
    ++ js "<div class=`file-type`>" ++ type file ++ js "</div>" ++ nl 16
    ++ js "<div class=`file-path`>" ++ path result ++ js "</div>" ++ nl 16
    ++ (if strictEq (type file) (js "image") then
          nl 20 ++ js "<div class=`color-indicator`>" ++ nl 24
            ++ js "<span class=`color-dot` style=`background-color: "
            ++ colorSwatch (color file) ++ js "`></span>" ++ nl 24
            ++ js "<span>" ++ interp (color file) ++ js "</span>" ++ nl 20
            ++ js "</div>" ++ nl 16
        else [])
    ++ nl 16 ++ js "<div class=`tags`>" ++ nl 20
    ++ join [] (map tagSpan (tags file)) ++ nl 16
    ++ js "</div>" ++ nl 16
    ++ (if strictEq (type file) (js "3d") then
          nl 20 ++ js "<button class=`view-3d-btn` data-path=`"
            ++ path result ++ js "`>View 3D Model</button>" ++ nl 16
        else [])
    ++ nl 12 ++ js "</div>" ++ nl 8
    ++ js "</div>" ++ nl 4.

(** The element [#results]: its [style.display] and its [innerHTML]. *)
Record ResultsContainer := mkResults {
  display : jsstring;
  innerHTML : jsstring
}.

Definition displayResults (fileContents : gmap jsstring jsstring)
    (resultsContainer : ResultsContainer) (results : list Result)
  : ResultsContainer :=
  if Nat.eqb (length results) 0 then
    mkResults (js "none") (innerHTML resultsContainer)
  else
    mkResults (js "grid")
      (join [] (map (resultCard fileContents) results)).

(** ** Loading the corpus *)

(** What the startup request of [data/tags.json] comes to: [fetch]
    rejects, [response.json()] rejects, or a document is parsed. *)
Inductive TagsResponse :=
  | FetchRejected
  | JsonRejected
  | Parsed (document : FileData).

(** What the request of one text file comes to. *)
Inductive TextResponse :=
  | TextRejected
  | Text (body : jsstring).

Record Network := mkNetwork {
  tagsJson : TagsResponse;
  textFile : jsstring -> TextResponse
}.

Inductive LogEntry :=
  | DataLoaded
  | ErrorLoadingJson
  | ErrorLoadingText (path : jsstring).

(** The module-level variables [fileData] and [fileContents], and the
    console. *)
Record Store := mkStore {
  fileData : option FileData;
  fileContents : gmap jsstring jsstring;
  console : list LogEntry
}.

(** The state of a freshly loaded page. *)
Definition initialStore : Store := mkStore None ∅ [].

(** One iteration of the loop of [loadTextContents]. *)
Definition loadTextFile (net : Network) (st : Store)
    (item : jsstring * FileEntry) : Store :=
  let '(path, file) := item in
  if strictEq (type file) (js "text") then
    match textFile net path with
    | Text body =>
        mkStore (fileData st) (<[path := body]> (fileContents st))
          (console st)
    | TextRejected =>
        mkStore (fileData st)
          (<[path := js "Error loading file content"]> (fileContents st))
          (console st ++ [ErrorLoadingText path])
    end
  else st.

(** [loadTextContents] after its first [n] iterations; the requests are
    awaited one after the other. *)
Definition loadTextContentsUpTo (n : nat) (net : Network) (st : Store)
  : option Store :=
  match fileData st with
  | None => None
  | Some data => Some (fold_left (loadTextFile net) (take n (files data)) st)
  end.

(** [loadTextContents] run to its end; [None] is the [TypeError] of
    reading [files] of [null]. *)
Definition loadTextContents (net : Network) (st : Store) : option Store :=
  match fileData st with
  | None => None
  | Some data => Some (fold_left (loadTextFile net) (files data) st)
  end.

Definition loadData (net : Network) (st : Store) : Store :=
  match tagsJson net with
  | FetchRejected | JsonRejected =>
      mkStore (fileData st) (fileContents st)
        (console st ++ [ErrorLoadingJson])
  | Parsed document =>
      let st1 :=
        mkStore (Some document) (fileContents st)
          (console st ++ [DataLoaded]) in
      match loadTextContents net st1 with
      | Some st2 => st2
      | None =>
          mkStore (fileData st1) (fileContents st1)
            (console st1 ++ [ErrorLoadingJson])
      end
  end.

(** ** The 3D viewer

    Every call of [initThreeJsViewer] builds a scene, a renderer, a loading
    indicator and three loader callbacks that close over them; the calls
    are numbered in order and a session is the number of its call.  The
    state keeps what the claims on the viewer's life cycle are about: the
    children of [#model-container], the text of each loading indicator,
    which scenes hold their model, the variable [currentModel], the frame
    requests and the resize listeners.  Camera framing and materials
    (floating point) are left out. *)

Module Viewer.

Inductive Node :=
  | Canvas (session : nat)
  | LoadingText (session : nat).

Definition sameNode (a b : Node) : bool :=
  match a, b with
  | Canvas s, Canvas s' => Nat.eqb s s'
  | LoadingText s, LoadingText s' => Nat.eqb s s'
  | _, _ => false
  end.

Definition session (n : Node) : nat :=
  match n with
  | Canvas s => s
  | LoadingText s => s
  end.

Record State := mkState {
  (** [None]: [#model-viewer-modal] is not created yet; [Some b]: it is,
      and is displayed iff [b] *)
  modal : option bool;
  (** the children of [#model-container] *)
  container : list Node;
  (** [innerHTML] of the loading indicator of each session *)
  loadingText : gmap nat jsstring;
  (** the sessions whose scene holds its decoded model *)
  sceneModels : list nat;
  (** the variable [currentModel]: the decoded scene of that session *)
  currentModel : option nat;
  (** the calls of [dispose] that went through, by the session of the
      model *)
  disposed : list nat;
  (** the [loader.load] calls not settled yet, with their URL *)
  decoding : list (nat * jsstring);
  (** the [animate] closures with a frame request pending *)
  frameRequests : list nat;
  (** the listeners of [resize] on [window] *)
  resizeListeners : list nat;
  (** the number of calls of [initThreeJsViewer] so far *)
  sessions : nat;
  (** the calls of [console.error] *)
  errorLog : list nat
}.

Definition initial : State := mkState None [] ∅ [] None [] [] [] [] 0 [].

(** [animate] of session [s]: it requests the next frame for itself, then
    renders. *)
Definition animate (s : nat) (st : State) : State :=
  mkState (modal st) (container st) (loadingText st) (sceneModels st)
    (currentModel st) (disposed st) (decoding st)
    (frameRequests st ++ [s]) (resizeListeners st) (sessions st)
    (errorLog st).

Definition initThreeJsViewer (modelUrl : jsstring) (st : State) : State :=
  let s := sessions st in
  let st1 :=
    mkState (modal st)
      [Canvas s; LoadingText s]
      (<[s := js "Loading 3D model..."]> (loadingText st))
      (sceneModels st) (currentModel st) (disposed st)
      (decoding st ++ [(s, modelUrl)])
      (frameRequests st) (resizeListeners st) (S s) (errorLog st) in
  let st2 := animate s st1 in
  mkState (modal st2) (container st2) (loadingText st2) (sceneModels st2)
    (currentModel st2) (disposed st2) (decoding st2) (frameRequests st2)
    (resizeListeners st2 ++ [s]) (sessions st2) (errorLog st2).

Definition openModelViewer (modelPath : jsstring) (st : State) : State :=
  let st1 :=
    mkState (Some true) (container st) (loadingText st) (sceneModels st)
      (currentModel st) (disposed st) (decoding st) (frameRequests st)
      (resizeListeners st) (sessions st) (errorLog st) in
  initThreeJsViewer (js "data/" ++ modelPath) st1.

(** A call returns or throws; either way it leaves a state behind. *)
Inductive Outcome :=
  | Returns (st : State)
  | Throws (st : State).

Definition after (o : Outcome) : State :=
  match o with
  | Returns st => st
  | Throws st => st
  end.

Definition threw (o : Outcome) : bool :=
  match o with
  | Returns _ => false
  | Throws _ => true
  end.

(** [currentModel.dispose()] on the decoded scene of session [m].  The
    scene [GLTFLoader] hands over is a [THREE.Group]; in three.js r126,
    which the page loads, a group has no [dispose]: the call throws a
    [TypeError] and nothing is disposed of. *)
Definition callDispose (m : nat) (st : State) : Outcome := Throws st.

Definition closeModelViewer (st : State) : Outcome :=
  let modal' :=
    match modal st with
    | Some _ => Some false
    | None => None
    end in
  let st1 :=
    mkState modal' (container st) (loadingText st) (sceneModels st)
      (currentModel st) (disposed st) (decoding st) (frameRequests st)
      (resizeListeners st) (sessions st) (errorLog st) in
  match currentModel st1 with
  | Some m =>
      match callDispose m st1 with
      | Returns st2 =>
          Returns
            (mkState (modal st2) (container st2) (loadingText st2)
               (sceneModels st2) None (disposed st2) (decoding st2)
               (frameRequests st2) (resizeListeners st2) (sessions st2)
               (errorLog st2))
      | Throws st2 => Throws st2
      end
  | None => Returns st1
  end.

(** The success callback of session [s].  [removeChild] throws when the
    indicator is not a child of the container. *)
Definition onLoad (s : nat) (st : State) : Outcome :=
  if existsb (sameNode (LoadingText s)) (container st) then
    Returns
      (mkState (modal st)
         (List.filter (fun n => negb (sameNode (LoadingText s) n))
            (container st))
         (loadingText st) (sceneModels st ++ [s]) (Some s) (disposed st)
         (decoding st) (frameRequests st) (resizeListeners st)
         (sessions st) (errorLog st))
  else Throws st.

(** The progress callback of session [s]; [percent] is the text of
    [Math.round(percent)]. *)
Definition onProgress (s : nat) (percent : jsstring) (st : State) : State :=
  mkState (modal st) (container st)
    (<[s := js "Loading: " ++ percent ++ js "%"]> (loadingText st))
    (sceneModels st) (currentModel st) (disposed st) (decoding st)
    (frameRequests st) (resizeListeners st) (sessions st) (errorLog st).

(** The error callback of session [s]. *)
Definition onError (s : nat) (st : State) : State :=
  mkState (modal st) (container st)
    (<[s := js "Error loading model"]> (loadingText st))
    (sceneModels st) (currentModel st) (disposed st) (decoding st)
    (frameRequests st) (resizeListeners st) (sessions st)
    (errorLog st ++ [s]).

(** The loader settles the request of session [s]. *)
Definition settle (s : nat) (st : State) : State :=
  mkState (modal st) (container st) (loadingText st) (sceneModels st)
    (currentModel st) (disposed st)
    (List.filter (fun d => negb (Nat.eqb (fst d) s)) (decoding st))
    (frameRequests st) (resizeListeners st) (sessions st) (errorLog st).

(** A display frame: the browser takes the pending requests and runs each
    callback. *)
Definition animationFrame (st : State) : State :=
  fold_left (fun acc s => animate s acc) (frameRequests st)
    (mkState (modal st) (container st) (loadingText st) (sceneModels st)
       (currentModel st) (disposed st) (decoding st) []
       (resizeListeners st) (sessions st) (errorLog st)).

Inductive Event :=
  | OpenModelViewer (modelPath : jsstring)
  | CloseModelViewer
  | OnLoad (s : nat)
  | OnProgress (s : nat) (percent : jsstring)
  | OnError (s : nat)
  | AnimationFrame.

Definition step (st : State) (ev : Event) : Outcome :=
  match ev with
  | OpenModelViewer modelPath => Returns (openModelViewer modelPath st)
  | CloseModelViewer => closeModelViewer st
  | OnLoad s => onLoad s (settle s st)
  | OnProgress s percent => Returns (onProgress s percent st)
  | OnError s => Returns (onError s (settle s st))
  | AnimationFrame => Returns (animationFrame st)
  end.

(** The loader calls back only for a request in flight, and the close
    button exists once the modal does. *)
Definition enabled (st : State) (ev : Event) : bool :=
  match ev with
  | OnLoad s | OnProgress s _ | OnError s =>
      existsb (fun d => Nat.eqb (fst d) s) (decoding st)
  | CloseModelViewer =>
      match modal st with
      | Some _ => true
      | None => false
      end
  | OpenModelViewer _ | AnimationFrame => true
  end.

Fixpoint run (evs : list Event) (st : State) : option State :=
  match evs with
  | [] => Some st
  | ev :: rest =>
      if enabled st ev then run rest (after (step st ev)) else None
  end.

Inductive Reachable : State -> Prop :=
  | reach_initial : Reachable initial
  | reach_step st ev :
      Reachable st -> enabled st ev = true -> Reachable (after (step st ev)).

(** A later call of [initThreeJsViewer] has replaced session [s]. *)
Definition superseded (s : nat) (st : State) : Prop := S s < sessions st.

(** The session whose loader callback an event is. *)
Definition callbackSession (ev : Event) : option nat :=
  match ev with
  | OnLoad s | OnProgress s _ | OnError s => Some s
  | OpenModelViewer _ | CloseModelViewer | AnimationFrame => None
  end.

(** What holds of the registrations and of the container in every state
    the viewer reaches. *)
Definition Registered (st : State) : Prop :=
  frameRequests st = seq 0 (sessions st)
  /\ resizeListeners st = seq 0 (sessions st)
  /\ Forall (fun n => S (session n) = sessions st) (container st).

End Viewer.

(** ** The search contract in the words of the specification *)

Section SearchSpec.

Variable toLowerCase : jsstring -> jsstring.

(** A term matches a record iff (i) some tag's lower-cased text contains
    it, or (ii) the lower-cased tag texts joined by single spaces do. *)
Definition spec_termMatches (file : FileEntry) (term : jsstring) : bool :=
  existsb (fun t => includes (toLowerCase (tag t)) term) (tags file)
  || includes
       (join (js " ") (map (fun t => toLowerCase (tag t)) (tags file)))
       term.

(** The query is lower-cased and split on runs of white space. *)
Definition spec_terms (query : jsstring) : list jsstring :=
  split_ws (toLowerCase query).

(** A record matches iff every term matches. *)
Definition spec_matches (query : jsstring) (file : FileEntry) : bool :=
  forallb (spec_termMatches file) (spec_terms query).

(** The matching records, in corpus order. *)
Definition spec_search (corpus : FileData) (query : jsstring)
  : list Result :=
  map (fun item => mkResult (fst item) (snd item))
    (List.filter (fun item => spec_matches query (snd item)) (files corpus)).

End SearchSpec.

(** The lower-casing of strings of Basic Latin code units, on which the
    built-in changes [A]-[Z] only. *)
Definition toLowerCaseAscii (s : jsstring) : jsstring :=
  map (fun c => if (N.leb 65 c && N.leb c 90)%N then (c + 32)%N else c) s.

(** ** Notions the properties are stated with *)

(** [file.tags.some(...)] is false on a record without tags, whatever the
    callback. *)
Definition hasTags (file : FileEntry) : bool :=
  match tags file with
  | [] => false
  | _ :: _ => true
  end.

(** The five characters [escapeHtml] replaces. *)
Definition significant (c : N) : bool :=
  N.eqb c 38 || N.eqb c 60 || N.eqb c 62 || N.eqb c 34 || N.eqb c 39.

(** The entities [escapeHtml] introduces. *)
Definition entities : list jsstring :=
  [js "&amp;"; js "&lt;"; js "&gt;"; js "&quot;"; js "&#039;"].

(** What [escapeHtml] makes of one code unit. *)
Definition escapeChar (c : N) : jsstring :=
  if N.eqb c 38 then js "&amp;"
  else if N.eqb c 60 then js "&lt;"
  else if N.eqb c 62 then js "&gt;"
  else if N.eqb c 34 then js "&quot;"
  else if N.eqb c 39 then js "&#039;"
  else [c].

(** [sub] stands in [s] as it is, code unit for code unit. *)
Definition occursIn (sub s : jsstring) : Prop :=
  exists before behind, s = before ++ sub ++ behind.


(** ** Notions for the further properties *)

(** No code unit of [s] is white space. *)
Definition noWhiteSpace (s : jsstring) : bool :=
  forallb (fun c => negb (isWhiteSpace c)) s.

(** Some tag of the record, lower-cased, contains the term. *)
Definition someTagIncludes (toLowerCase : jsstring -> jsstring)
    (file : FileEntry) (term : jsstring) : bool :=
  existsb (fun t => includes (toLowerCase (tag t)) term) (tags file).



(** ** Notions for the further properties of the viewer *)

Module Lifecycle.
Import Viewer.

(** How the requests in flight, the decoded models, the tracked model and
    the disposed ones stand to each other in the states the viewer
    reaches. *)
Definition Consistent (st : State) : Prop :=
  NoDup (map fst (decoding st))
  /\ (forall s,
        In s (map fst (decoding st)) ->
        s < sessions st /\ ~ In s (sceneModels st))
  /\ NoDup (sceneModels st)
  /\ (forall m, In m (sceneModels st) -> m < sessions st)
  /\ (forall m,
        currentModel st = Some m ->
        In m (sceneModels st) /\ ~ In m (disposed st))
  /\ NoDup (disposed st)
  /\ (forall m, In m (disposed st) -> In m (sceneModels st)).

(** What the container holds: nothing before the first session, then the
    canvas of the latest session, with its loading indicator as long as
    its model is not decoded. *)
Definition ContainerShape (st : State) : Prop :=
  match sessions st with
  | 0 => container st = []
  | S latest =>
      (container st = [Canvas latest; LoadingText latest]
       /\ ~ In latest (sceneModels st))
      \/ (container st = [Canvas latest] /\ In latest (sceneModels st))
  end.

(** A decoded model that is not tracked and was not disposed of. *)
Definition Orphaned (m : nat) (st : State) : Prop :=
  In m (sceneModels st)
  /\ currentModel st <> Some m
  /\ ~ In m (disposed st)
  /\ ~ In m (map fst (decoding st)).

(** A session whose decode has failed. *)
Definition Failed (s : nat) (st : State) : Prop :=
  s < sessions st
  /\ ~ In s (map fst (decoding st))
  /\ ~ In s (sceneModels st)
  /\ currentModel st <> Some s
  /\ loadingText st !! s = Some (js "Error loading model").

End Lifecycle.

(** ** Sample data *)

(** A two-record corpus: one text file tagged [cat], one without tags. *)
Definition taggedCat : FileEntry :=
  mkFile (js "text") [mkTag (js "cat") (js "100%")] None None.

Definition untagged : FileEntry := mkFile (js "text") [] None None.

Definition smallCorpus : FileData :=
  mkData [(js "a.txt", taggedCat); (js "b.txt", untagged)].

(** A viewer in which a first model was decoded and a second asset was
    then requested and decoded, without a close in between. *)
Definition replacedViewer : Viewer.State :=
  Viewer.after
    (Viewer.step
       (Viewer.openModelViewer (js "b.glb")
          (Viewer.after
             (Viewer.step (Viewer.openModelViewer (js "a.glb") Viewer.initial)
                (Viewer.OnLoad 0))))
       (Viewer.OnLoad 1)).

(** * Properties *)

(** ** String built-ins *)

Lemma splitWs_nonempty inRun cur s : splitWs inRun cur s <> [].
Proof.
  revert inRun cur.
  induction s as [|c rest IH]; intros inRun cur; simpl.
  - discriminate.
  - destruct (isWhiteSpace c); [destruct inRun|]; try apply IH.
    discriminate.
Qed.

Lemma split_ws_nonempty s : split_ws s <> [].
Proof. apply splitWs_nonempty. Qed.

Lemma trimStart_blank s : forallb isWhiteSpace s = true -> trimStart s = [].
Proof.
  induction s as [|c rest IH]; simpl; [reflexivity|].
  destruct (isWhiteSpace c); simpl; [exact IH | discriminate].
Qed.

Lemma trim_blank s : forallb isWhiteSpace s = true -> trim s = [].
Proof.
  intros H. unfold trim. rewrite (trimStart_blank s H). reflexivity.
Qed.

Lemma includes_empty s : includes s [] = true.
Proof. destruct s; reflexivity. Qed.

(** ** The query engine *)

Section SearchProperties.

Variable toLowerCase : jsstring -> jsstring.

(** The [for] loop that pushes the matching entries is a filter that keeps
    the order of the entries. *)
Lemma push_loop_filter (keep : FileEntry -> bool) entries acc :
  fold_left
    (fun results '(path, file) =>
       if keep file then results ++ [mkResult path file] else results)
    entries acc
  = acc ++ map (fun item => mkResult (fst item) (snd item))
             (List.filter (fun item => keep (snd item)) entries).
Proof.
  revert acc.
  induction entries as [|[p f] rest IH]; intros acc; simpl.
  - now rewrite app_nil_r.
  - rewrite IH. destruct (keep f); simpl; [|reflexivity].
    now rewrite <- app_assoc.
Qed.

(** [some] with a test that holds of no element or of all of them. *)
Lemma existsb_or_const {A} (f : A -> bool) (b : bool) (l : list A) :
  existsb (fun x => f x || b) l
  = match l with
    | [] => false
    | _ :: _ => existsb f l || b
    end.
Proof.
  induction l as [|x l IH]; [reflexivity|].
  change (existsb (fun y => f y || b) (x :: l))
    with ((f x || b) || existsb (fun y => f y || b) l).
  rewrite IH. simpl. destruct (f x), b, l; simpl; try reflexivity;
    now rewrite ?orb_true_r, ?orb_false_r.
Qed.

(** [some] over the tags, with the joined text tested inside the callback,
    is the disjunction of the specification except on a record without
    tags, where it is false. *)
Lemma termMatches_hasTags file term :
  termMatches toLowerCase file term
  = hasTags file && spec_termMatches toLowerCase file term.
Proof.
  unfold termMatches, spec_termMatches, hasTags.
  rewrite (existsb_or_const
             (fun t => includes (toLowerCase (tag t)) term)).
  destruct (tags file); reflexivity.
Qed.

Lemma forallb_pointwise {A} (f g : A -> bool) (l : list A) :
  (forall x, f x = g x) -> forallb f l = forallb g l.
Proof.
  intros Hfg. induction l as [|x l IH]; simpl; [reflexivity|].
  now rewrite Hfg, IH.
Qed.

Lemma forallb_and_const {A} (f : A -> bool) (b : bool) (l : list A) :
  l <> [] -> forallb (fun x => b && f x) l = b && forallb f l.
Proof.
  intros Hl. destruct b; simpl.
  - reflexivity.
  - destruct l; [congruence | reflexivity].
Qed.

Lemma hasAllTerms_hasTags file query :
  forallb (termMatches toLowerCase file) (split_ws (toLowerCase query))
  = hasTags file && spec_matches toLowerCase query file.
Proof.
  unfold spec_matches, spec_terms.
  rewrite <- forallb_and_const by apply split_ws_nonempty.
  apply forallb_pointwise. intros term. apply termMatches_hasTags.
Qed.

(** The empty term matches every record under the rule of the
    specification. *)
Lemma spec_termMatches_empty file :
  spec_termMatches toLowerCase file [] = true.
Proof.
  unfold spec_termMatches. rewrite includes_empty. apply orb_true_r.
Qed.

(** With a term that is not empty among them, the terms do not all match
    a record without tags. *)
Lemma spec_terms_untagged file terms :
  hasTags file = false ->
  existsb (fun term => negb (falsy term)) terms = true ->
  forallb (spec_termMatches toLowerCase file) terms = false.
Proof.
  unfold hasTags. intros Htags.
  induction terms as [|term terms IH]; simpl; [discriminate|].
  destruct term as [|c term]; simpl.
  - intros H. rewrite (IH H). apply andb_false_r.
  - intros _. unfold spec_termMatches.
    destruct (tags file); [reflexivity | discriminate].
Qed.

(** The search as a filter over the entries of the corpus. *)
Lemma searchFiles_as_filter (corpus : FileData) (query : jsstring) :
  searchFiles toLowerCase (Some corpus) query
  = if falsy query then []
    else
      map (fun item => mkResult (fst item) (snd item))
        (List.filter
           (fun item =>
              hasTags (snd item)
              && spec_matches toLowerCase query (snd item))
           (files corpus)).
Proof.
  unfold searchFiles. destruct (falsy query); [reflexivity|].
  cbv zeta.
  rewrite (push_loop_filter
             (fun file =>
                forallb (termMatches toLowerCase file)
                  (split_ws (toLowerCase query)))).
  simpl. f_equal. apply filter_ext.
  intros item. apply hasAllTerms_hasTags.
Qed.

(** On a query with a term that is not empty, the search is the search of
    the specification. *)
Lemma searchFiles_spec_search corpus query :
  falsy query = false ->
  existsb (fun term => negb (falsy term)) (spec_terms toLowerCase query)
  = true ->
  searchFiles toLowerCase (Some corpus) query
  = spec_search toLowerCase corpus query.
Proof.
  intros Hquery Hterm. rewrite searchFiles_as_filter, Hquery.
  unfold spec_search. f_equal. apply filter_ext. intros [p file]; simpl.
  destruct (hasTags file) eqn:Htags; [reflexivity|]. simpl.
  symmetry. now apply spec_terms_untagged.
Qed.

(** A string that is not blank leaves a term that is not empty. *)
Lemma splitWs_has_term inRun cur s :
  (inRun = true -> cur = []) ->
  cur <> [] \/ forallb isWhiteSpace s = false ->
  existsb (fun term => negb (falsy term)) (splitWs inRun cur s) = true.
Proof.
  revert inRun cur.
  induction s as [|c rest IH]; intros inRun cur Hrun Hsome.
  - destruct Hsome as [Hcur|Hblank]; [|discriminate Hblank].
    simpl. rewrite orb_false_r.
    destruct (rev cur) as [|x l] eqn:Hrev; [|reflexivity].
    apply (f_equal (@rev N)) in Hrev. rewrite rev_involutive in Hrev.
    contradiction.
  - cbn [splitWs]. cbn [forallb] in Hsome.
    destruct (isWhiteSpace c) eqn:Hc.
    + rewrite andb_true_l in Hsome. destruct inRun.
      * apply IH; [reflexivity|]. right.
        destruct Hsome as [Hcur|Hrest]; [|exact Hrest].
        now rewrite (Hrun eq_refl) in Hcur.
      * cbn [existsb]. destruct Hsome as [Hcur|Hrest].
        -- destruct (rev cur) as [|x l] eqn:Hrev; [|reflexivity].
           apply (f_equal (@rev N)) in Hrev.
           rewrite rev_involutive in Hrev. contradiction.
        -- rewrite (IH true []); [apply orb_true_r | reflexivity|].
           now right.
    + apply IH; [discriminate|]. left. discriminate.
Qed.

Lemma split_ws_has_term s :
  forallb isWhiteSpace s = false ->
  existsb (fun term => negb (falsy term)) (split_ws s) = true.
Proof.
  intros Hs. apply splitWs_has_term; [discriminate | now right].
Qed.

(** C1: for every loaded corpus and every query that is not blank, the
    search returns exactly the records for which every term of the
    lower-cased query, split on runs of white space, matches - some tag's
    lower-cased text contains the term, or the lower-cased tag texts
    joined by single spaces do - in the iteration order of the corpus.
    (A blank query gives no record: that is C5.) *)
Theorem searchFiles_is_spec_search (corpus : FileData) (query : jsstring) :
  falsy query = false ->
  forallb isWhiteSpace (toLowerCase query) = false ->
  searchFiles toLowerCase (Some corpus) query
  = spec_search toLowerCase corpus query.
Proof.
  intros Hquery Hlowered. apply searchFiles_spec_search; [exact Hquery|].
  now apply split_ws_has_term.
Qed.

(** C5: a query that is empty or made of white space only, as the input
    listener passes it on, and any query on a corpus that is not loaded
    or is empty, give the empty sequence. *)
Theorem search_blank_or_no_corpus :
  (forall fileData value,
     forallb isWhiteSpace value = true ->
     onSearchInput toLowerCase fileData value = [])
  /\ (forall fileData, searchFiles toLowerCase fileData [] = [])
  /\ (forall query,
        searchFiles toLowerCase None query = []
        /\ onSearchInput toLowerCase None query = [])
  /\ (forall query,
        searchFiles toLowerCase (Some (mkData [])) query = []
        /\ onSearchInput toLowerCase (Some (mkData [])) query = []).
Proof.
  assert (Hnil : forall fileData, searchFiles toLowerCase fileData [] = []).
  { intros [data|]; reflexivity. }
  assert (Hempty : forall query,
             searchFiles toLowerCase (Some (mkData [])) query = []).
  { intros query. unfold searchFiles. now destruct (falsy query). }
  repeat split.
  - intros fileData value Hblank. unfold onSearchInput.
    rewrite (trim_blank value Hblank). apply Hnil.
  - exact Hnil.
  - apply Hempty.
  - apply Hempty.
Qed.

(** C8: when the startup request of the corpus is rejected, or its body
    does not parse, [loadData] returns with [fileData] still [null], and
    every search then gives the empty sequence. *)
Theorem loadData_failure_search_empty (net : Network) :
  tagsJson net = FetchRejected \/ tagsJson net = JsonRejected ->
  let st := loadData net initialStore in
  fileData st = None
  /\ fileContents st = ∅
  /\ console st = [ErrorLoadingJson]
  /\ forall query,
       searchFiles toLowerCase (fileData st) query = []
       /\ onSearchInput toLowerCase (fileData st) query = [].
Proof.
  intros Hfail. unfold loadData.
  destruct Hfail as [-> | ->]; simpl; repeat split.
Qed.

End SearchProperties.

Lemma searchFiles_witness :
  searchFiles toLowerCaseAscii (Some smallCorpus) (js "CAT")
  = [mkResult (js "a.txt") taggedCat]
  /\ spec_search toLowerCaseAscii smallCorpus (js "CAT")
     = [mkResult (js "a.txt") taggedCat].
Proof.
  rewrite (searchFiles_is_spec_search toLowerCaseAscii smallCorpus
             (js "CAT") eq_refl eq_refl).
  split; reflexivity.
Defined.

Lemma search_blank_witness :
  forallb isWhiteSpace (js "  ") = true
  /\ onSearchInput toLowerCaseAscii (Some smallCorpus) (js "  ") = [].
Proof.
  split; [reflexivity|].
  apply (proj1 (search_blank_or_no_corpus toLowerCaseAscii)).
  reflexivity.
Defined.

Lemma loadData_failure_witness :
  let net := mkNetwork JsonRejected (fun _ => TextRejected) in
  tagsJson net = JsonRejected
  /\ searchFiles toLowerCaseAscii (fileData (loadData net initialStore))
       (js "cat") = [].
Proof.
  split; [reflexivity|].
  apply (loadData_failure_search_empty toLowerCaseAscii
           (mkNetwork JsonRejected (fun _ => TextRejected))).
  right. reflexivity.
Defined.

(** The listener never passes a blank string that is not empty.  Called
    with one all the same, [searchFiles] tests two empty terms and returns
    every record that has a tag. *)
Example searchFiles_called_on_space :
  searchFiles toLowerCaseAscii (Some smallCorpus) (js " ")
  = [mkResult (js "a.txt") taggedCat].
Proof. reflexivity. Qed.

(** Two runs of the search: a whole tag written in another case, and a
    query whose two terms sit in two different tags. *)
Example search_whole_tag :
  map path (searchFiles toLowerCaseAscii (Some smallCorpus) (js "Cat"))
  = [js "a.txt"].
Proof. reflexivity. Qed.

Example search_across_tags :
  map path
    (searchFiles toLowerCaseAscii
       (Some
          (mkData
             [(js "ny.png",
               mkFile (js "image")
                 [mkTag (js "New") (js "90%"); mkTag (js "York") (js "80%")]
                 (Some (js "gray")) None)]))
       (js "new york"))
  = [js "ny.png"].
Proof. reflexivity. Qed.

(** ** Escaping *)

Lemma replaceAll_app c r s t :
  replaceAll c r (s ++ t) = replaceAll c r s ++ replaceAll c r t.
Proof. apply flat_map_app. Qed.

Lemma replaceAll_flat_map c r (f : N -> jsstring) s :
  replaceAll c r (flat_map f s) = flat_map (fun x => replaceAll c r (f x)) s.
Proof.
  induction s as [|x s IH]; simpl; [reflexivity|].
  now rewrite replaceAll_app, IH.
Qed.

(** The five replacements in a row never touch what an earlier one has
    introduced: together they rewrite each code unit of the source once. *)
Lemma escapeHtml_flat_map unsafe :
  escapeHtml unsafe = flat_map escapeChar unsafe.
Proof.
  unfold escapeHtml.
  unfold replaceAll at 5.
  rewrite !replaceAll_flat_map.
  apply flat_map_ext. intros x. unfold escapeChar.
  destruct (N.eqb_spec x 38) as [->|H38]; [reflexivity|].
  destruct (N.eqb_spec x 60) as [->|H60]; [reflexivity|].
  destruct (N.eqb_spec x 62) as [->|H62]; [reflexivity|].
  destruct (N.eqb_spec x 34) as [->|H34]; [reflexivity|].
  destruct (N.eqb_spec x 39) as [->|H39]; [reflexivity|].
  unfold replaceAll; simpl.
  apply N.eqb_neq in H60, H62, H34, H39.
  rewrite H60; simpl. rewrite H62; simpl. rewrite H34; simpl.
  rewrite H39; reflexivity.
Qed.

Lemma escapeChar_cases c :
  (significant c = false /\ escapeChar c = [c])
  \/ In (escapeChar c) entities.
Proof.
  unfold escapeChar, significant, entities.
  destruct (N.eqb c 38); [right; simpl; tauto|].
  destruct (N.eqb c 60); [right; simpl; tauto|].
  destruct (N.eqb c 62); [right; simpl; tauto|].
  destruct (N.eqb c 34); [right; simpl; tauto|].
  destruct (N.eqb c 39); [right; simpl; tauto|].
  left. split; reflexivity.
Qed.

Lemma entity_clean entity c :
  In entity entities -> In c entity ->
  c <> 60%N /\ c <> 62%N /\ c <> 34%N /\ c <> 39%N.
Proof.
  unfold entities. simpl.
  intros [<-|[<-|[<-|[<-|[<-|[]]]]]] Hc; simpl in Hc;
    repeat (destruct Hc as [<-|Hc]; [repeat split; discriminate|]);
    destruct Hc.
Qed.

Lemma ampersand_in_front (s before behind : jsstring) :
  forallb (fun c => negb (N.eqb c 38)) (tl s) = true ->
  s = before ++ 38%N :: behind -> before = [].
Proof.
  intros Hfree ->. destruct before as [|b before]; [reflexivity|].
  simpl in Hfree. rewrite forallb_app in Hfree. simpl in Hfree.
  now rewrite andb_false_r in Hfree.
Qed.

(** An entity has its only ampersand in front. *)
Lemma entity_ampersand entity before behind :
  In entity entities -> entity = before ++ 38%N :: behind -> before = [].
Proof.
  unfold entities. simpl.
  intros [<-|[<-|[<-|[<-|[<-|[]]]]]]; apply ampersand_in_front;
    reflexivity.
Qed.

Lemma escaped_clean unsafe c :
  In c (flat_map escapeChar unsafe) ->
  c <> 60%N /\ c <> 62%N /\ c <> 34%N /\ c <> 39%N.
Proof.
  rewrite in_flat_map. intros (x & _ & Hc).
  destruct (escapeChar_cases x) as [[Hx Heq]|Hentity].
  - rewrite Heq in Hc. destruct Hc as [<-|[]].
    unfold significant in Hx.
    repeat (apply orb_false_elim in Hx; destruct Hx as [Hx ?]).
    repeat split; intros ->; discriminate.
  - now apply (entity_clean (escapeChar x)).
Qed.

Lemma escaped_ampersand unsafe before behind :
  flat_map escapeChar unsafe = before ++ 38%N :: behind ->
  exists entity rest,
    In entity entities /\ 38%N :: behind = entity ++ rest.
Proof.
  revert before.
  induction unsafe as [|x unsafe IH]; intros before Heq; simpl in Heq.
  - destruct before; discriminate.
  - apply app_eq_app in Heq. destruct Heq as (mid & [[Hx Hrest]|[Hb Hrest]]).
    + (* the block of [x] ends before the ampersand, or is empty *)
      destruct mid as [|m mid].
      * rewrite app_nil_r in Hx. simpl in Hrest.
        apply (IH []). simpl. now rewrite <- Hrest.
      * simpl in Hrest. injection Hrest as Hm Hbehind. subst m.
        destruct (escapeChar_cases x) as [[Hsig Hone]|Hentity].
        -- rewrite Hone in Hx. destruct before as [|b before].
           ++ simpl in Hx. injection Hx as Hx _. subst x.
              discriminate Hsig.
           ++ destruct before; discriminate Hx.
        -- pose proof (entity_ampersand _ _ _ Hentity Hx) as ->.
           simpl in Hx. exists (escapeChar x), (flat_map escapeChar unsafe).
           split; [exact Hentity|].
           rewrite Hx. simpl. now rewrite Hbehind.
    + (* the ampersand lies behind the block of [x] *)
      destruct mid as [|m mid].
      * simpl in Hrest. rewrite app_nil_r in Hb.
        apply (IH []). simpl. exact Hrest.
      * apply (IH (m :: mid)). exact Hrest.
Qed.

Lemma getFilePreview_text fileContents result :
  type (entry result) = js "text" ->
  getFilePreview fileContents result
  = js "<div class=`text-content`>"
      ++ escapeHtml (orElse (fileContents !! path result) (js "Loading..."))
      ++ js "</div>".
Proof.
  intros Htype. unfold getFilePreview. rewrite Htype.
  change (strictEq (js "text") (js "image")) with false.
  change (strictEq (js "text") (js "text")) with true.
  reflexivity.
Qed.

(** C6: the output of [escapeHtml] holds none of [<], [>], the double
    quote and the single quote, each ampersand in it starts one of the
    five entities, and the body of a text file reaches the markup of its
    preview through [escapeHtml] only. *)
Theorem escapeHtml_neutralises (source : jsstring) :
  (forall c,
     In c (escapeHtml source) ->
     c <> 60%N /\ c <> 62%N /\ c <> 34%N /\ c <> 39%N)
  /\ (forall before behind,
        escapeHtml source = before ++ 38%N :: behind ->
        exists entity rest,
          In entity entities /\ 38%N :: behind = entity ++ rest)
  /\ (forall fileContents result,
        type (entry result) = js "text" ->
        fileContents !! path result = Some source ->
        falsy source = false ->
        getFilePreview fileContents result
        = js "<div class=`text-content`>" ++ escapeHtml source
            ++ js "</div>").
Proof.
  rewrite escapeHtml_flat_map. split; [|split].
  - intros c. apply escaped_clean.
  - intros before behind. apply escaped_ampersand.
  - intros fileContents result Htype Hbody Hsource.
    rewrite (getFilePreview_text _ _ Htype), Hbody.
    unfold orElse. rewrite Hsource. now rewrite escapeHtml_flat_map.
Qed.

Lemma escapeHtml_witness :
  getFilePreview (<[js "a.txt" := js "<b>"]> ∅)
    (mkResult (js "a.txt") taggedCat)
  = js "<div class=`text-content`>&lt;b&gt;</div>".
Proof.
  rewrite (proj2 (proj2 (escapeHtml_neutralises (js "<b>")))
             (<[js "a.txt" := js "<b>"]> ∅)
             (mkResult (js "a.txt") taggedCat));
    reflexivity.
Defined.

(** ** The colour swatch *)

Lemma colorTable_truthy name hex :
  colorMap !! name = Some hex -> falsy hex = false.
Proof.
  intros Hlookup. apply elem_of_list_to_map_2 in Hlookup.
  apply list_elem_of_In in Hlookup. unfold colorTable in Hlookup.
  simpl in Hlookup.
  repeat (destruct Hlookup as [Heq|Hlookup];
          [injection Heq as _ <-; reflexivity|]).
  destruct Hlookup.
Qed.

Lemma colorSwatch_lookup name :
  colorSwatch (Some name)
  = match colorMap !! name with
    | Some hex => hex
    | None => name
    end.
Proof.
  unfold colorSwatch, orElse.
  destruct (colorMap !! name) as [hex|] eqn:Hlookup; [|reflexivity].
  now rewrite (colorTable_truthy name hex Hlookup).
Qed.

(** ** Occurrences in the markup *)

Lemma occursIn_here sub behind : occursIn sub (sub ++ behind).
Proof. now exists [], behind. Qed.

Lemma occursIn_skip sub before s : occursIn sub s -> occursIn sub (before ++ s).
Proof.
  intros (b & e & ->). exists (before ++ b), e. now rewrite <- app_assoc.
Qed.

Lemma occursIn_front sub s behind : occursIn sub s -> occursIn sub (s ++ behind).
Proof.
  intros (b & e & ->). exists b, (e ++ behind). now rewrite <- !app_assoc.
Qed.

Lemma occursIn_join sub parts part :
  In part parts -> occursIn sub part -> occursIn sub (join [] parts).
Proof.
  intros Hin Hsub.
  induction parts as [|p parts IH]; [destruct Hin|].
  assert (Hjoin : join [] (p :: parts) = p ++ join [] parts).
  { destruct parts; simpl; [now rewrite app_nil_r | reflexivity]. }
  rewrite Hjoin. destruct Hin as [->|Hin].
  - now apply occursIn_front.
  - apply occursIn_skip. now apply IH.
Qed.

Lemma occursIn_here2 (a b behind : jsstring) :
  occursIn (a ++ b) (a ++ b ++ behind).
Proof. exists [], behind. simpl. now rewrite <- !app_assoc. Qed.

Lemma occursIn_here3 (a b c behind : jsstring) :
  occursIn (a ++ b ++ c) (a ++ b ++ c ++ behind).
Proof. exists [], behind. simpl. now rewrite <- !app_assoc. Qed.

Lemma occursIn_here5 (a b c d e behind : jsstring) :
  occursIn (a ++ b ++ c ++ d ++ e) (a ++ b ++ c ++ d ++ e ++ behind).
Proof. exists [], behind. simpl. now rewrite <- !app_assoc. Qed.

(** Look for [sub] along a concatenation, piece by piece; the literals
    are compared as written. *)
Ltac find_occurrence :=
  rewrite <- ?app_assoc;
  repeat first
    [ apply occursIn_here5 | apply occursIn_here3 | apply occursIn_here2
    | apply occursIn_here | apply occursIn_skip ].

(** Look for the piece of a concatenation in which [H] finds [sub]. *)
Ltac find_inside H :=
  rewrite <- ?app_assoc;
  repeat first [ apply occursIn_front; exact H | apply occursIn_skip ].

(** Settle the tests on the type of a record whose type is known. *)
Ltac settle_types :=
  repeat match goal with
    | |- context [strictEq (js ?a) (js ?b)] =>
        let v := eval vm_compute in (strictEq (js a) (js b)) in
        let H := fresh in
        assert (H : strictEq (js a) (js b) = v) by (vm_compute; reflexivity);
        rewrite H; clear H
    end;
  cbv iota.

Section Markup.

Local Opaque js nl.

Variable fileContents : gmap jsstring jsstring.
Variable result : Result.

Lemma resultCard_path :
  occursIn
    (js "<div class=`file-path`>" ++ path result ++ js "</div>")
    (resultCard fileContents result).
Proof. unfold resultCard. cbv zeta. find_occurrence. Qed.

Lemma resultCard_tag t :
  In t (tags (entry result)) ->
  occursIn
    (js "<span class=`tag`>" ++ tag t ++ js " (" ++ confidence t
       ++ js ")</span>")
    (resultCard fileContents result).
Proof.
  intros Hin.
  assert (Hjoin : occursIn (tagSpan t)
                    (join [] (map tagSpan (tags (entry result))))).
  { apply (occursIn_join _ _ (tagSpan t)).
    - now apply in_map.
    - exists [], []. now rewrite app_nil_r. }
  unfold tagSpan at 1 in Hjoin.
  unfold resultCard. cbv zeta. find_inside Hjoin.
Qed.

Lemma resultCard_preview :
  occursIn (getFilePreview fileContents result)
    (resultCard fileContents result).
Proof. unfold resultCard. cbv zeta. find_occurrence. Qed.

Lemma resultCard_image :
  type (entry result) = js "image" ->
  occursIn
    (js "<img src=`data/" ++ path result ++ js "` alt=`" ++ path result
       ++ js "`>")
    (resultCard fileContents result)
  /\ occursIn
       (js "<span class=`color-dot` style=`background-color: "
          ++ colorSwatch (color (entry result)) ++ js "`></span>")
       (resultCard fileContents result)
  /\ occursIn
       (js "<span>" ++ interp (color (entry result)) ++ js "</span>")
       (resultCard fileContents result).
Proof.
  intros Htype. unfold resultCard, getFilePreview. cbv zeta.
  rewrite Htype. settle_types. repeat split; find_occurrence.
Qed.

Lemma resultCard_text :
  type (entry result) = js "text" ->
  occursIn
    (js "<div class=`text-content`>"
       ++ escapeHtml
            (orElse (fileContents !! path result) (js "Loading..."))
       ++ js "</div>")
    (resultCard fileContents result).
Proof.
  intros Htype. unfold resultCard, getFilePreview. cbv zeta.
  rewrite Htype. settle_types. find_occurrence.
Qed.

Lemma resultCard_model :
  type (entry result) = js "3d" ->
  occursIn
    (js "<button class=`view-3d-btn` data-path=`" ++ path result
       ++ js "`>View 3D Model</button>")
    (resultCard fileContents result)
  /\ (truthy (thumbnail (entry result)) = true ->
      occursIn
        (js "<img src=`data/" ++ interp (thumbnail (entry result))
           ++ js "` alt=`" ++ path result ++ js "` class=`model-thumbnail`>")
        (resultCard fileContents result)).
Proof.
  intros Htype. unfold resultCard, getFilePreview. cbv zeta.
  rewrite Htype. settle_types. split.
  - find_occurrence.
  - intros ->. find_occurrence.
Qed.

End Markup.

Lemma occursIn_trans (a b c : jsstring) :
  occursIn a b -> occursIn b c -> occursIn a c.
Proof.
  intros (b1 & b2 & ->) (c1 & c2 & ->).
  exists (c1 ++ b1), (b2 ++ c2). now rewrite <- !app_assoc.
Qed.

(** The markup of every result is part of what [displayResults] writes
    into the page. *)
Lemma displayResults_card (fileContents : gmap jsstring jsstring)
    (resultsContainer : ResultsContainer) (results : list Result)
    (result : Result) :
  In result results ->
  occursIn (resultCard fileContents result)
    (innerHTML (displayResults fileContents resultsContainer results)).
Proof.
  intros Hin. unfold displayResults.
  destruct results as [|r results]; [destruct Hin|].
  cbn [length Nat.eqb innerHTML].
  apply (occursIn_join _ _ (resultCard fileContents result)).
  - now apply in_map.
  - exists [], []. now rewrite app_nil_r.
Qed.

(** C9: the markup [displayResults] writes for a result holds the file
    path, the tag texts and confidences, the colour name and the
    thumbnail path as they are, between the literal pieces of the
    template; only the body of a text file goes through [escapeHtml]. *)
Theorem displayResults_verbatim (fileContents : gmap jsstring jsstring)
    (resultsContainer : ResultsContainer) (results : list Result)
    (result : Result) :
  In result results ->
  let page :=
    innerHTML (displayResults fileContents resultsContainer results) in
  let file := entry result in
  occursIn (js "<div class=`file-path`>" ++ path result ++ js "</div>") page
  /\ (forall t,
        In t (tags file) ->
        occursIn
          (js "<span class=`tag`>" ++ tag t ++ js " (" ++ confidence t
             ++ js ")</span>")
          page)
  /\ (type file = js "image" ->
      occursIn
        (js "<img src=`data/" ++ path result ++ js "` alt=`" ++ path result
           ++ js "`>")
        page
      /\ (forall name,
            color file = Some name ->
            occursIn (js "<span>" ++ name ++ js "</span>") page))
  /\ (type file = js "3d" ->
      occursIn
        (js "<button class=`view-3d-btn` data-path=`" ++ path result
           ++ js "`>View 3D Model</button>")
        page
      /\ (forall thumb,
            thumbnail file = Some thumb ->
            falsy thumb = false ->
            occursIn
              (js "<img src=`data/" ++ thumb ++ js "` alt=`" ++ path result
                 ++ js "` class=`model-thumbnail`>")
              page))
  /\ (type file = js "text" ->
      occursIn
        (js "<div class=`text-content`>"
           ++ escapeHtml
                (orElse (fileContents !! path result) (js "Loading..."))
           ++ js "</div>")
        page).
Proof.
  intros Hin. cbv zeta.
  pose proof (displayResults_card fileContents resultsContainer results
                result Hin) as Hcard.
  assert (Hpage : forall piece,
             occursIn piece (resultCard fileContents result) ->
             occursIn piece
               (innerHTML
                  (displayResults fileContents resultsContainer results))).
  { intros piece Hpiece. exact (occursIn_trans _ _ _ Hpiece Hcard). }
  split; [apply Hpage, resultCard_path|].
  split; [intros t Ht; now apply Hpage, resultCard_tag|].
  split.
  { intros Htype.
    destruct (resultCard_image fileContents result Htype) as (H1 & _ & H3).
    split; [now apply Hpage|].
    intros name Hcolor. rewrite Hcolor in H3. cbn [interp] in H3.
    now apply Hpage. }
  split.
  { intros Htype.
    destruct (resultCard_model fileContents result Htype) as (H1 & H2).
    split; [now apply Hpage|].
    intros thumb Hthumb Htruthy. apply Hpage.
    rewrite Hthumb in H2. cbn [interp truthy] in H2.
    apply H2. now rewrite Htruthy. }
  intros Htype. now apply Hpage, resultCard_text.
Qed.

(** A page of three results - an image, a model with a thumbnail and a
    text file - whose path, tag, colour name and thumbnail path hold
    markup: they reach the page as they are, next to an escaped body. *)
Lemma displayResults_verbatim_witness :
  let image :=
    mkResult (js "<i>.png")
      (mkFile (js "image") [mkTag (js "<b>") (js "<9>")]
         (Some (js "<c>")) None) in
  let model :=
    mkResult (js "m.glb")
      (mkFile (js "3d") [] None (Some (js "<t>.png"))) in
  let text := mkResult (js "a.txt") (mkFile (js "text") [] None None) in
  let page :=
    innerHTML
      (displayResults (<[js "a.txt" := js "<u>"]> ∅) (mkResults [] [])
         [image; model; text]) in
  occursIn (js "<div class=`file-path`><i>.png</div>") page
  /\ occursIn (js "<span class=`tag`><b> (<9>)</span>") page
  /\ occursIn (js "<span><c></span>") page
  /\ occursIn
       (js "<img src=`data/<t>.png` alt=`m.glb` class=`model-thumbnail`>")
       page
  /\ occursIn (js "<div class=`text-content`>&lt;u&gt;</div>") page.
Proof.
  cbv zeta.
  set (image :=
         mkResult (js "<i>.png")
           (mkFile (js "image") [mkTag (js "<b>") (js "<9>")]
              (Some (js "<c>")) None)).
  set (model :=
         mkResult (js "m.glb")
           (mkFile (js "3d") [] None (Some (js "<t>.png")))).
  set (text := mkResult (js "a.txt") (mkFile (js "text") [] None None)).
  set (cache := <[js "a.txt" := js "<u>"]> (∅ : gmap jsstring jsstring)).
  destruct (displayResults_verbatim cache (mkResults [] [])
              [image; model; text] image (or_introl eq_refl))
    as (Hpath & Htag & Himage & _).
  destruct (displayResults_verbatim cache (mkResults [] [])
              [image; model; text] model (or_intror (or_introl eq_refl)))
    as (_ & _ & _ & Hmodel & _).
  destruct (displayResults_verbatim cache (mkResults [] [])
              [image; model; text] text
              (or_intror (or_intror (or_introl eq_refl))))
    as (_ & _ & _ & _ & Htext).
  split; [exact Hpath|].
  split; [apply (Htag (mkTag (js "<b>") (js "<9>"))); now left|].
  split; [apply (proj2 (Himage eq_refl) (js "<c>")); reflexivity|].
  split.
  - apply (proj2 (Hmodel eq_refl) (js "<t>.png")); reflexivity.
  - apply Htext. reflexivity.
Defined.

(** C7 (as amended): the swatch of an image record whose colour name is
    not a name inherited from [Object.prototype] is the entry of the fixed
    table for that name when the table has one, and the colour name
    itself when it has none; of the names in the table, [unknown] is the
    one mapped to the light gray [#CCCCCC]. *)
Theorem colorSwatch_table_or_name (fileContents : gmap jsstring jsstring)
    (result : Result) (name : jsstring) :
  type (entry result) = js "image" ->
  color (entry result) = Some name ->
  inherited name = false ->
  occursIn
    (js "<span class=`color-dot` style=`background-color: "
       ++ colorSwatch (Some name) ++ js "`></span>")
    (resultCard fileContents result)
  /\ (forall hex, colorMap !! name = Some hex -> colorSwatch (Some name) = hex)
  /\ (colorMap !! name = None -> colorSwatch (Some name) = name)
  /\ colorSwatch (Some (js "unknown")) = js "#CCCCCC".
Proof.
  intros Htype Hcolor _. split.
  - rewrite <- Hcolor. now apply resultCard_image.
  - rewrite colorSwatch_lookup. repeat split.
    + now intros hex ->.
    + now intros ->.
Qed.

Lemma colorSwatch_witness :
  let result :=
    mkResult (js "b.png")
      (mkFile (js "image") [] (Some (js "blue")) None) in
  type (entry result) = js "image"
  /\ color (entry result) = Some (js "blue")
  /\ inherited (js "blue") = false
  /\ colorSwatch (Some (js "blue")) = js "#0000FF".
Proof.
  cbv zeta. split; [reflexivity|]. split; [reflexivity|].
  split; [reflexivity|].
  refine (proj1 (proj2
            (colorSwatch_table_or_name ∅
               (mkResult (js "b.png")
                  (mkFile (js "image") [] (Some (js "blue")) None))
               (js "blue") _ _ _)) (js "#0000FF") _);
    reflexivity.
Defined.

(** C7 as stated fails: [teal] is neither in the table nor an inherited
    name, and its swatch is [teal], not a gray. *)
Lemma colorSwatch_not_gray :
  colorMap !! js "teal" = None
  /\ inherited (js "teal") = false
  /\ colorSwatch (Some (js "teal")) = js "teal"
  /\ colorSwatch (Some (js "teal")) <> js "#CCCCCC"
  /\ colorSwatch (Some (js "teal")) <> js "#808080".
Proof.
  repeat split; try reflexivity; vm_compute; discriminate.
Qed.

(** ** The cache of text bodies *)


Lemma loadTextFile_other net st item (p : jsstring) :
  p <> fst item ->
  fileContents (loadTextFile net st item) !! p = fileContents st !! p.
Proof.
  destruct item as [q f]. simpl. intros Hne. unfold loadTextFile.
  destruct (strictEq (type f) (js "text")); [|reflexivity].
  destruct (textFile net q); simpl; now rewrite lookup_insert_ne.
Qed.

Lemma loadTextFiles_other net items st (p : jsstring) :
  ~ In p (map fst items) ->
  fileContents (fold_left (loadTextFile net) items st) !! p
  = fileContents st !! p.
Proof.
  revert st. induction items as [|item items IH]; intros st Hnotin; simpl.
  - reflexivity.
  - rewrite IH by (intros H; apply Hnotin; now right).
    apply loadTextFile_other. intros ->. apply Hnotin. now left.
Qed.






(** ** The viewer *)

Module ViewerProperties.
Import Viewer.

Lemma animate_all requests st :
  fold_left (fun acc s => animate s acc) requests st
  = mkState (modal st) (container st) (loadingText st) (sceneModels st)
      (currentModel st) (disposed st) (decoding st)
      (frameRequests st ++ requests) (resizeListeners st) (sessions st)
      (errorLog st).
Proof.
  revert st. induction requests as [|s requests IH]; intros st; simpl.
  - rewrite app_nil_r. now destruct st.
  - rewrite IH. simpl. now rewrite <- app_assoc.
Qed.

(** Every render loop asks for its next frame: a display frame leaves the
    state as it found it. *)
Lemma animationFrame_same st : animationFrame st = st.
Proof. unfold animationFrame. rewrite animate_all. now destruct st. Qed.

Lemma openModelViewer_registered modelPath st :
  Registered st -> Registered (openModelViewer modelPath st).
Proof.
  intros (Hframes & Hresize & _). unfold Registered. cbn -[seq].
  rewrite Hframes, Hresize, seq_S.
  repeat split. repeat constructor.
Qed.

Lemma onLoad_registered s st :
  Registered st -> Registered (after (onLoad s st)).
Proof.
  intros (Hframes & Hresize & Hcontainer). unfold onLoad.
  destruct (existsb _ _); simpl; repeat split; try assumption.
  apply List.Forall_forall. intros n Hn. cbn [container] in Hn.
  apply filter_In in Hn as [Hn _].
  rewrite List.Forall_forall in Hcontainer. now apply Hcontainer.
Qed.

(** What a close leaves behind, whether it returns or throws, and when it
    throws. *)
Lemma closeModelViewer_leaves st :
  after (closeModelViewer st)
  = mkState
      match modal st with
      | Some _ => Some false
      | None => None
      end
      (container st) (loadingText st) (sceneModels st) (currentModel st)
      (disposed st) (decoding st) (frameRequests st) (resizeListeners st)
      (sessions st) (errorLog st)
  /\ threw (closeModelViewer st)
     = match currentModel st with
       | Some _ => true
       | None => false
       end.
Proof.
  unfold closeModelViewer, callDispose. cbn.
  destruct (currentModel st); split; reflexivity.
Qed.

Lemma step_registered st ev :
  Registered st -> Registered (after (step st ev)).
Proof.
  intros Hreg. destruct ev as [modelPath| |s|s percent|s|]; simpl.
  - now apply openModelViewer_registered.
  - rewrite (proj1 (closeModelViewer_leaves st)). exact Hreg.
  - apply onLoad_registered. exact Hreg.
  - exact Hreg.
  - exact Hreg.
  - now rewrite animationFrame_same.
Qed.

Lemma reachable_registered st : Reachable st -> Registered st.
Proof.
  induction 1 as [|st ev _ IH _].
  - repeat split. constructor.
  - now apply step_registered.
Qed.

Lemma run_reachable evs st st' :
  Reachable st -> run evs st = Some st' -> Reachable st'.
Proof.
  revert st. induction evs as [|ev evs IH]; intros st Hreach Hrun.
  - injection Hrun as <-. exact Hreach.
  - simpl in Hrun. destruct (enabled st ev) eqn:Hen; [|discriminate].
    apply (IH _ (reach_step st ev Hreach Hen) Hrun).
Qed.

(** C2 (as amended): in every state the viewer reaches, the container
    holds nodes of the latest session only and [currentModel] tracks at
    most one model, while the render loop and the resize listener of
    every session opened so far are still registered; a request for a
    new asset disposes of nothing and adds its own loop and listener to
    those of the earlier sessions. *)
Theorem open_keeps_earlier_sessions (st : State) (modelPath : jsstring) :
  Reachable st ->
  let st' := openModelViewer modelPath st in
  (frameRequests st = seq 0 (sessions st)
   /\ resizeListeners st = seq 0 (sessions st)
   /\ Forall (fun n => S (session n) = sessions st) (container st))
  /\ (frameRequests st' = frameRequests st ++ [sessions st]
      /\ resizeListeners st' = resizeListeners st ++ [sessions st]
      /\ disposed st' = disposed st
      /\ currentModel st' = currentModel st
      /\ sceneModels st' = sceneModels st
      /\ container st' = [Canvas (sessions st); LoadingText (sessions st)]
      /\ sessions st' = S (sessions st)).
Proof.
  intros Hreach. cbv zeta. split.
  - now apply reachable_registered.
  - repeat split.
Qed.

Lemma open_keeps_witness :
  let st := openModelViewer (js "a.glb") initial in
  frameRequests (openModelViewer (js "b.glb") st) = frameRequests st ++ [1].
Proof.
  cbv zeta.
  refine (proj1 (proj2
            (open_keeps_earlier_sessions
               (openModelViewer (js "a.glb") initial) (js "b.glb") _))).
  apply (reach_step initial (OpenModelViewer (js "a.glb")) reach_initial).
  reflexivity.
Defined.

(** C2 as stated fails: after two requests in a row the render loops and
    resize listeners of both sessions are registered, and nothing was
    disposed of. *)
Lemma two_render_loops :
  exists st,
    run [OpenModelViewer (js "a.glb"); OpenModelViewer (js "b.glb")] initial
    = Some st
    /\ frameRequests st = [0; 1]
    /\ frameRequests (animationFrame st) = [0; 1]
    /\ resizeListeners st = [0; 1]
    /\ disposed st = [].
Proof. eexists. repeat split. Qed.

(** C3 (not met by the code): closing hides the modal and nothing more.
    When [currentModel] tracks a decoded model, the call of its [dispose]
    throws: nothing is disposed of and the variable is not cleared.  In
    every case each render loop keeps requesting frames and each resize
    listener stays registered. *)
Theorem closeModelViewer_releases_nothing (st : State) :
  let out := closeModelViewer st in
  threw out
  = match currentModel st with
    | Some _ => true
    | None => false
    end
  /\ modal (after out) = match modal st with
                         | Some _ => Some false
                         | None => None
                         end
  /\ currentModel (after out) = currentModel st
  /\ disposed (after out) = disposed st
  /\ sceneModels (after out) = sceneModels st
  /\ frameRequests (after out) = frameRequests st
  /\ frameRequests (animationFrame (after out)) = frameRequests st
  /\ resizeListeners (after out) = resizeListeners st.
Proof.
  cbv zeta. rewrite animationFrame_same.
  destruct (closeModelViewer_leaves st) as [-> ->]. now repeat split.
Qed.

(** C3 at work: a session is opened, gets ready and is closed.  The close
    throws; the model is still tracked and was not disposed of, the
    render loop still requests frames and the resize listener is still
    registered. *)
Lemma close_leaves_render_loop :
  exists ready st,
    run [OpenModelViewer (js "a.glb"); OnLoad 0] initial = Some ready
    /\ threw (step ready CloseModelViewer) = true
    /\ run [CloseModelViewer; AnimationFrame] ready = Some st
    /\ modal st = Some false
    /\ currentModel st = Some 0
    /\ disposed st = []
    /\ frameRequests st = [0]
    /\ resizeListeners st = [0].
Proof. do 2 eexists. repeat split. Qed.

(** The indicator of a superseded session is no longer in the container. *)
Lemma superseded_detached st s :
  Registered st -> superseded s st ->
  existsb (sameNode (LoadingText s)) (container st) = false.
Proof.
  intros (_ & _ & Hcontainer) Hs. unfold superseded in Hs.
  induction Hcontainer as [|n nodes Hn _ IH]; [reflexivity|].
  simpl. rewrite IH, orb_false_r.
  destruct n as [s'|s']; [reflexivity|]. simpl in *.
  apply Nat.eqb_neq. lia.
Qed.

(** C4 (as amended): a callback of a superseded session changes neither
    the container, nor the tracked model, nor the scene models, nor the
    loading indicator of any other session, the latest one included; its
    progress and error callbacks return normally and write the indicator
    of their own session.  (A callback that arrives after a close, with no
    newer session, runs as for an open session.) *)
Theorem stale_callback_confined (st : State) (s : nat) (ev : Event) :
  Reachable st -> superseded s st -> callbackSession ev = Some s ->
  let out := step st ev in
  let st' := after out in
  container st' = container st
  /\ currentModel st' = currentModel st
  /\ sceneModels st' = sceneModels st
  /\ disposed st' = disposed st
  /\ (forall s', s' <> s -> loadingText st' !! s' = loadingText st !! s')
  /\ loadingText st' !! (sessions st - 1) = loadingText st !! (sessions st - 1)
  /\ (ev <> OnLoad s -> threw out = false).
Proof.
  intros Hreach Hs Hev. cbv zeta.
  pose proof (reachable_registered st Hreach) as Hreg.
  assert (Hlatest : sessions st - 1 <> s) by (unfold superseded in Hs; lia).
  destruct ev as [modelPath| |s0|s0 percent|s0|]; simpl in Hev;
    try discriminate; injection Hev as ->.
  - (* the success callback throws on the detached indicator *)
    simpl. unfold onLoad.
    change (container (settle s st)) with (container st).
    rewrite (superseded_detached st s Hreg Hs). simpl.
    repeat split. intros H. now contradiction H.
  - simpl. repeat split.
    + intros s' Hne. now rewrite lookup_insert_ne.
    + now rewrite lookup_insert_ne.
  - simpl. repeat split.
    + intros s' Hne. now rewrite lookup_insert_ne.
    + now rewrite lookup_insert_ne.
Qed.

Lemma stale_callback_witness :
  let st :=
    openModelViewer (js "b.glb") (openModelViewer (js "a.glb") initial) in
  loadingText (after (step st (OnProgress 0 (js "50")))) !! 1
  = Some (js "Loading 3D model...").
Proof.
  cbv zeta.
  refine (eq_trans
            (proj1 (proj2 (proj2 (proj2 (proj2 (proj2
               (stale_callback_confined
                  (openModelViewer (js "b.glb")
                     (openModelViewer (js "a.glb") initial))
                  0 (OnProgress 0 (js "50")) _ _ _))))))) _).
  - apply (run_reachable
             [OpenModelViewer (js "a.glb"); OpenModelViewer (js "b.glb")]
             initial); [apply reach_initial | reflexivity].
  - unfold superseded. simpl. lia.
  - reflexivity.
  - reflexivity.
Defined.

(** C4 as stated fails: the success callback of a session closed while
    its decode was in flight attaches its model and sets [currentModel],
    and the success callback of a superseded session throws. *)
Lemma stale_callback_not_discarded :
  (exists st,
     run [OpenModelViewer (js "a.glb"); CloseModelViewer] initial = Some st
     /\ modal st = Some false
     /\ enabled st (OnLoad 0) = true
     /\ currentModel st = None
     /\ currentModel (after (step st (OnLoad 0))) = Some 0
     /\ sceneModels (after (step st (OnLoad 0))) = [0])
  /\ (exists st,
        run [OpenModelViewer (js "a.glb"); OpenModelViewer (js "b.glb")]
          initial = Some st
        /\ enabled st (OnLoad 0) = true
        /\ threw (step st (OnLoad 0)) = true).
Proof. split; eexists; repeat split. Qed.

End ViewerProperties.

(** * Further properties *)

(** ** Substrings *)

Lemma startsWith_app s t :
  startsWith s t = true <-> exists behind, s = t ++ behind.
Proof.
  revert s. induction t as [|y t IH]; intros s; simpl.
  - split; [intros _; now exists s | intros _; now destruct s].
  - destruct s as [|x s]; simpl.
    + split; [discriminate | intros (behind & H); discriminate H].
    + rewrite andb_true_iff, N.eqb_eq, IH. split.
      * intros (-> & behind & ->). now exists behind.
      * intros (behind & H). injection H as -> ->. split; eauto.
Qed.

(** [includes] finds exactly the substrings. *)
Lemma includes_occursIn s t : includes s t = true <-> occursIn t s.
Proof.
  induction s as [|x s IH].
  - cbn [includes]. rewrite orb_false_r, startsWith_app. split.
    + intros (behind & H). exists [], behind. exact H.
    + intros (before & behind & H). destruct before; simpl in H.
      * now exists behind.
      * discriminate H.
  - cbn [includes]. rewrite orb_true_iff, startsWith_app, IH. split.
    + intros [(behind & ->) | (before & behind & ->)].
      * now exists [], behind.
      * now exists (x :: before), behind.
    + intros (before & behind & H). destruct before as [|b before].
      * left. now exists behind.
      * right. simpl in H. injection H as _ ->. now exists before, behind.
Qed.

(** A string without white space that stands in [a ++ " " ++ b] stands in
    [a] or in [b]. *)
Lemma occursIn_around_space (t a b : jsstring) :
  t <> [] -> noWhiteSpace t = true ->
  occursIn t (a ++ 32%N :: b) -> occursIn t a \/ occursIn t b.
Proof.
  intros Hne Hnows (before & behind & Heq).
  assert (Hhead : forall rest, t <> 32%N :: rest).
  { intros rest ->. discriminate Hnows. }
  assert (Hmid : forall l rest, t <> l ++ 32%N :: rest).
  { intros l rest ->. unfold noWhiteSpace in Hnows.
    rewrite forallb_app in Hnows. simpl in Hnows.
    now rewrite andb_false_r in Hnows. }
  symmetry in Heq. apply app_eq_app in Heq.
  destruct Heq as (l & [[Hbefore Hrest]|[Ha Hrest]]).
  - destruct l as [|x l]; simpl in Hrest.
    + destruct t as [|c t]; [congruence|].
      simpl in Hrest. injection Hrest as Hc _. subst c.
      exfalso. now apply (Hhead t).
    + injection Hrest as _ ->. right. now exists l, behind.
  - apply app_eq_app in Hrest.
    destruct Hrest as (l2 & [[Ht Hspace]|[Hl Hbehind]]).
    + destruct l2 as [|x l2]; simpl in Hspace.
      * rewrite app_nil_r in Ht. subst l. left.
        exists before, []. now rewrite app_nil_r.
      * injection Hspace as Hx _. subst x. exfalso.
        now apply (Hmid l l2).
    + subst l. left. now exists before, l2.
Qed.

Lemma occursIn_join_space (t : jsstring) (parts : list jsstring) :
  t <> [] -> noWhiteSpace t = true ->
  occursIn t (join (js " ") parts) ->
  exists part, In part parts /\ occursIn t part.
Proof.
  intros Hne Hnows.
  induction parts as [|p parts IH]; intros Hocc.
  - destruct Hocc as (before & behind & H). exfalso.
    destruct before; [destruct t; [congruence | discriminate H]
                     | discriminate H].
  - destruct parts as [|q parts].
    + exists p. split; [now left | exact Hocc].
    + change (join (js " ") (p :: q :: parts))
        with (p ++ 32%N :: join (js " ") (q :: parts)) in Hocc.
      apply occursIn_around_space in Hocc as [Hp|Hrest]; try assumption.
      * exists p. split; [now left | exact Hp].
      * destruct (IH Hrest) as (part & Hin & Hpart).
        exists part. split; [now right | exact Hpart].
Qed.

(** ** What a split leaves in the terms *)

Lemma splitWs_noWhiteSpace inRun cur s :
  noWhiteSpace cur = true ->
  Forall (fun piece => noWhiteSpace piece = true) (splitWs inRun cur s).
Proof.
  revert inRun cur.
  induction s as [|c rest IH]; intros inRun cur Hcur; simpl.
  - constructor; [|constructor]. unfold noWhiteSpace in *.
    rewrite forallb_forall in *. intros x Hx. apply Hcur.
    now apply in_rev.
  - destruct (isWhiteSpace c) eqn:Hc.
    + assert (Hempty : noWhiteSpace [] = true) by reflexivity.
      destruct inRun; [now apply IH|].
      constructor; [|now apply IH].
      unfold noWhiteSpace in *. rewrite forallb_forall in *.
      intros x Hx. apply Hcur. now apply in_rev.
    + apply IH. unfold noWhiteSpace. simpl. now rewrite Hc.
Qed.

(** No term of a split query holds white space. *)
Lemma split_ws_noWhiteSpace s term :
  In term (split_ws s) -> noWhiteSpace term = true.
Proof.
  intros Hin.
  pose proof (splitWs_noWhiteSpace false [] s eq_refl) as Hall.
  rewrite List.Forall_forall in Hall. now apply Hall.
Qed.

(** ** The query engine, further *)

Section SearchFurther.

Variable toLowerCase : jsstring -> jsstring.

(** For a term without white space, the test on the joined tag texts adds
    nothing to the test on the single tags. *)
Lemma termMatches_single_tag file term :
  noWhiteSpace term = true ->
  termMatches toLowerCase file term = someTagIncludes toLowerCase file term.
Proof.
  intros Hnows. unfold termMatches, someTagIncludes.
  rewrite (existsb_or_const
             (fun t => includes (toLowerCase (tag t)) term)).
  destruct (tags file) as [|t0 ts] eqn:Htags; [reflexivity|].
  destruct (existsb _ (t0 :: ts)) eqn:Hsome; [reflexivity|].
  rewrite orb_false_l.
  destruct (includes _ term) eqn:Hjoined; [|reflexivity].
  exfalso. destruct term as [|c term].
  - simpl in Hsome. rewrite includes_empty in Hsome. discriminate Hsome.
  - apply includes_occursIn in Hjoined.
    apply occursIn_join_space in Hjoined as (part & Hin & Hpart);
      [|discriminate|exact Hnows].
    apply in_map_iff in Hin as (t & <- & Hin).
    apply includes_occursIn in Hpart.
    assert (Hex : existsb
                    (fun t => includes (toLowerCase (tag t)) (c :: term))
                    (t0 :: ts) = true).
    { apply existsb_exists. now exists t. }
    rewrite Hex in Hsome. discriminate Hsome.
Qed.

(** X1: the search returns, in corpus order, exactly the records in which
    every term of the query is contained in one single tag; the test on
    the joined tag texts never adds a record. *)
Theorem searchFiles_single_tags (corpus : FileData) (query : jsstring) :
  searchFiles toLowerCase (Some corpus) query
  = if falsy query then []
    else
      map (fun item => mkResult (fst item) (snd item))
        (List.filter
           (fun item =>
              forallb (someTagIncludes toLowerCase (snd item))
                (split_ws (toLowerCase query)))
           (files corpus)).
Proof.
  unfold searchFiles. destruct (falsy query); [reflexivity|]. cbv zeta.
  rewrite (push_loop_filter
             (fun file =>
                forallb (termMatches toLowerCase file)
                  (split_ws (toLowerCase query)))).
  simpl. f_equal. apply filter_ext. intros item.
  generalize (split_ws_noWhiteSpace (toLowerCase query)).
  induction (split_ws (toLowerCase query)) as [|term terms IH];
    intros Hterms; [reflexivity|].
  simpl. rewrite termMatches_single_tag by (apply Hterms; now left).
  rewrite IH; [reflexivity|]. intros t Ht. apply Hterms. now right.
Qed.

End SearchFurther.

(** ** Trimming *)

Lemma trimStart_app_blank (a s : jsstring) :
  forallb isWhiteSpace a = true -> trimStart (a ++ s) = trimStart s.
Proof.
  induction a as [|c a IH]; simpl; [reflexivity|].
  destruct (isWhiteSpace c); [exact IH | discriminate].
Qed.

Lemma trimStart_app (s b : jsstring) :
  trimStart (s ++ b)
  = match trimStart s with
    | [] => trimStart b
    | _ :: _ => trimStart s ++ b
    end.
Proof.
  induction s as [|c s IH]; simpl.
  - now destruct (trimStart b).
  - destruct (isWhiteSpace c); [exact IH | reflexivity].
Qed.

Lemma trim_pad (a s b : jsstring) :
  forallb isWhiteSpace a = true -> forallb isWhiteSpace b = true ->
  trim (a ++ s ++ b) = trim s.
Proof.
  intros Ha Hb. unfold trim.
  rewrite (trimStart_app_blank a _ Ha), trimStart_app.
  destruct (trimStart s) as [|c rest] eqn:Hs.
  - now rewrite (trimStart_blank b Hb).
  - rewrite rev_app_distr. rewrite trimStart_app_blank; [reflexivity|].
    rewrite forallb_forall in *. intros x Hx. apply Hb. now apply in_rev.
Qed.

Section ListenerFurther.

Variable toLowerCase : jsstring -> jsstring.

(** X2: white space typed before or after a query changes nothing of
    what the input listener finds. *)
Theorem onSearchInput_ignores_padding (fileData : option FileData)
    (before value behind : jsstring) :
  forallb isWhiteSpace before = true ->
  forallb isWhiteSpace behind = true ->
  onSearchInput toLowerCase fileData (before ++ value ++ behind)
  = onSearchInput toLowerCase fileData value.
Proof.
  intros Hbefore Hbehind. unfold onSearchInput. cbv zeta.
  now rewrite trim_pad.
Qed.

End ListenerFurther.

Lemma onSearchInput_padding_witness :
  map path
    (onSearchInput toLowerCaseAscii (Some smallCorpus) (js "  cat "))
  = [js "a.txt"].
Proof.
  change (js "  cat ") with (js "  " ++ js "cat" ++ js " ").
  rewrite (onSearchInput_ignores_padding toLowerCaseAscii
             (Some smallCorpus) (js "  ") (js "cat") (js " "));
    reflexivity.
Defined.

(** ** Escaping, further *)

Lemma escapeChar_length c :
  (significant c = false /\ escapeChar c = [c])
  \/ (significant c = true /\ 4 <= length (escapeChar c)
      /\ In 38%N (escapeChar c)).
Proof.
  unfold escapeChar, significant.
  destruct (N.eqb c 38); [right; vm_compute; intuition lia|].
  destruct (N.eqb c 60); [right; vm_compute; intuition lia|].
  destruct (N.eqb c 62); [right; vm_compute; intuition lia|].
  destruct (N.eqb c 34); [right; vm_compute; intuition lia|].
  destruct (N.eqb c 39); [right; vm_compute; intuition lia|].
  left. split; reflexivity.
Qed.

Lemma escaped_safe s :
  existsb significant s = false -> flat_map escapeChar s = s.
Proof.
  induction s as [|c s IH]; simpl; [reflexivity|].
  intros H. apply orb_false_elim in H as [Hc Hs].
  destruct (escapeChar_length c) as [[_ ->]|[Hsig _]]; [|congruence].
  simpl. now rewrite IH.
Qed.

Lemma escaped_length s : length s <= length (flat_map escapeChar s).
Proof.
  induction s as [|c s IH]; simpl; [lia|].
  rewrite length_app.
  destruct (escapeChar_length c) as [[_ ->]|[_ [Hlen _]]]; simpl; lia.
Qed.

Lemma escaped_same_length s :
  length (flat_map escapeChar s) = length s -> existsb significant s = false.
Proof.
  induction s as [|c s IH]; simpl; [reflexivity|].
  rewrite length_app. intros Hlen.
  pose proof (escaped_length s) as Hs.
  destruct (escapeChar_length c) as [[Hc Heq]|[_ [Hfour _]]].
  - rewrite Hc. simpl. apply IH. rewrite Heq in Hlen. simpl in Hlen. lia.
  - lia.
Qed.

Lemma escaped_significant s :
  existsb significant s = true ->
  existsb significant (flat_map escapeChar s) = true.
Proof.
  intros H. apply existsb_exists in H as (c & Hin & Hc).
  apply existsb_exists. exists 38%N. split; [|reflexivity].
  apply in_flat_map. exists c. split; [exact Hin|].
  destruct (escapeChar_length c) as [[Hsafe _]|[_ [_ Hamp]]];
    [congruence | exact Hamp].
Qed.

(** X3: [escapeHtml] works piece by piece, leaves exactly the strings
    without any of the five characters as they are, and changes every
    other string again when it is applied a second time. *)
Theorem escapeHtml_pieces_and_fixed_points :
  (forall a b, escapeHtml (a ++ b) = escapeHtml a ++ escapeHtml b)
  /\ (forall s, escapeHtml s = s <-> existsb significant s = false)
  /\ (forall s,
        escapeHtml (escapeHtml s) = escapeHtml s
        <-> existsb significant s = false).
Proof.
  split; [|split].
  - intros a b. rewrite !escapeHtml_flat_map. apply flat_map_app.
  - intros s. rewrite escapeHtml_flat_map. split.
    + intros H. apply escaped_same_length. now rewrite H.
    + apply escaped_safe.
  - intros s. rewrite !escapeHtml_flat_map. split.
    + intros H. apply (f_equal (@length N)) in H.
      apply escaped_same_length in H.
      destruct (existsb significant s) eqn:Hs; [|reflexivity].
      apply escaped_significant in Hs. congruence.
    + intros H. now rewrite !(escaped_safe s H).
Qed.

(** Split on which of the five characters [c] is, if any. *)
Ltac which_char c :=
  let E := fresh "E" in
  destruct (N.eqb c 38) eqn:E; [apply N.eqb_eq in E; subst c|];
  [|let E := fresh "E" in
    destruct (N.eqb c 60) eqn:E; [apply N.eqb_eq in E; subst c|];
    [|let E := fresh "E" in
      destruct (N.eqb c 62) eqn:E; [apply N.eqb_eq in E; subst c|];
      [|let E := fresh "E" in
        destruct (N.eqb c 34) eqn:E; [apply N.eqb_eq in E; subst c|];
        [|let E := fresh "E" in
          destruct (N.eqb c 39) eqn:E; [apply N.eqb_eq in E; subst c|]]]]].

(** The images of two code units never start alike. *)
Lemma escapeChar_prefix_free (x y : N) (a b : jsstring) :
  escapeChar x ++ a = escapeChar y ++ b -> x = y /\ a = b.
Proof.
  unfold escapeChar. intros H.
  which_char x; which_char y; vm_compute in H;
    try discriminate H;
    try (injection H as H; subst; split; reflexivity);
    try (injection H as Hx H; subst;
         repeat match goal with
           | E : N.eqb _ _ = false |- _ => vm_compute in E
           end;
         discriminate).
Qed.

Lemma escaped_injective (s t : jsstring) :
  flat_map escapeChar s = flat_map escapeChar t -> s = t.
Proof.
  revert t. induction s as [|x s IH]; intros [|y t] H; simpl in H.
  - reflexivity.
  - exfalso. destruct (escapeChar_length y) as [[_ Hy]|[_ [Hy _]]].
    + rewrite Hy in H. discriminate H.
    + apply (f_equal (@length N)) in H. rewrite length_app in H.
      simpl in H. lia.
  - exfalso. destruct (escapeChar_length x) as [[_ Hx]|[_ [Hx _]]].
    + rewrite Hx in H. discriminate H.
    + apply (f_equal (@length N)) in H. rewrite length_app in H.
      simpl in H. lia.
  - apply escapeChar_prefix_free in H as [-> H]. f_equal. now apply IH.
Qed.

(** X4: [escapeHtml] loses nothing: two different strings never have the
    same escaped form. *)
Theorem escapeHtml_injective (s t : jsstring) :
  escapeHtml s = escapeHtml t -> s = t.
Proof. rewrite !escapeHtml_flat_map. apply escaped_injective. Qed.

Lemma escapeHtml_injective_witness : (js "a<b" : jsstring) = js "a<b".
Proof. apply (escapeHtml_injective (js "a<b") (js "a<b")). reflexivity. Defined.

(** ** The input listener and the page *)


Section PageFurther.

Variable toLowerCase : jsstring -> jsstring.


End PageFurther.


(** ** Loading the text bodies, further *)










(** An entry of the cache built from the empty one belongs to an item the
    loop has gone through. *)
Lemma loadTextFiles_cached net items log document (p body : jsstring) :
  fileContents
    (fold_left (loadTextFile net) items (mkStore document ∅ log)) !! p
  = Some body ->
  In p (map fst items).
Proof.
  intros Hcached.
  destruct (decide (p ∈ map fst items)) as [Hin|Hnot];
    [now apply list_elem_of_In|].
  rewrite loadTextFiles_other in Hcached
    by (now rewrite <- list_elem_of_In).
  cbn [fileContents] in Hcached. rewrite lookup_empty in Hcached.
  discriminate Hcached.
Qed.

(** X8: while the text bodies are loaded, the cache only grows: an entry
    present after some iterations of the loop is there, unchanged, after
    any later one. *)
Theorem loadTextContents_only_adds (net : Network) (document : FileData)
    (log : list LogEntry) (n m : nat) (st1 st2 : Store)
    (p body : jsstring) :
  NoDup (map fst (files document)) ->
  n <= m ->
  loadTextContentsUpTo n net (mkStore (Some document) ∅ log) = Some st1 ->
  loadTextContentsUpTo m net (mkStore (Some document) ∅ log) = Some st2 ->
  fileContents st1 !! p = Some body ->
  fileContents st2 !! p = Some body.
Proof.
  intros Hnodup Hnm H1 H2 Hcached.
  unfold loadTextContentsUpTo in H1, H2. cbn [fileData] in H1, H2.
  injection H1 as <-. injection H2 as <-.
  assert (Hsplit : take m (files document)
                   = take n (files document)
                       ++ drop n (take m (files document))).
  { rewrite <- (take_drop n (take m (files document))) at 1.
    rewrite take_take. now replace (n `min` m) with n by lia. }
  rewrite Hsplit, fold_left_app.
  rewrite loadTextFiles_other; [exact Hcached|].
  apply loadTextFiles_cached in Hcached.
  assert (Hdistinct : NoDup (map fst (take m (files document)))).
  { rewrite <- (take_drop m (files document)), map_app in Hnodup.
    now apply NoDup_app in Hnodup as [Hnodup _]. }
  rewrite Hsplit, map_app in Hdistinct.
  apply NoDup_app in Hdistinct as (_ & Hapart & _).
  rewrite <- list_elem_of_In. apply Hapart. now apply list_elem_of_In.
Qed.

Lemma loadTextContents_only_adds_witness :
  let net := mkNetwork (Parsed smallCorpus) (fun _ => Text (js "meow")) in
  fileContents
    (fold_left (loadTextFile net) (files smallCorpus)
       (mkStore (Some smallCorpus) ∅ [])) !! js "a.txt"
  = Some (js "meow").
Proof.
  cbv zeta.
  refine (loadTextContents_only_adds
            (mkNetwork (Parsed smallCorpus) (fun _ => Text (js "meow")))
            smallCorpus [] 1 2
            (fold_left
               (loadTextFile
                  (mkNetwork (Parsed smallCorpus)
                     (fun _ => Text (js "meow"))))
               (take 1 (files smallCorpus))
               (mkStore (Some smallCorpus) ∅ []))
            _ (js "a.txt") (js "meow") _ _ _ _ _).
  - change (NoDup [js "a.txt"; js "b.txt"]).
    apply NoDup_cons_2; [|apply NoDup_cons_2; [|apply NoDup_nil_2]].
    + intros H. apply list_elem_of_In in H. vm_compute in H.
      destruct H as [H|[]]. discriminate H.
    + apply not_elem_of_nil.
  - lia.
  - reflexivity.
  - reflexivity.
  - reflexivity.
Defined.

(** ** The viewer, further *)

Module ViewerFurther.
Import Viewer Lifecycle.

Lemma enabled_callback st ev s :
  callbackSession ev = Some s -> enabled st ev = true ->
  In s (map fst (decoding st)).
Proof.
  intros Hev Hen.
  assert (Hex : existsb (fun d => Nat.eqb (fst d) s) (decoding st) = true).
  { destruct ev; simpl in Hev; try discriminate; injection Hev as ->;
      exact Hen. }
  apply existsb_exists in Hex as (d & Hin & Hd).
  apply Nat.eqb_eq in Hd. subst s. now apply in_map.
Qed.

Lemma settle_sessions s (requests : list (nat * jsstring)) :
  map fst (List.filter (fun d => negb (Nat.eqb (fst d) s)) requests)
  = List.filter (fun s' => negb (Nat.eqb s' s)) (map fst requests).
Proof.
  induction requests as [|d requests IH]; [reflexivity|].
  simpl. destruct (negb (fst d =? s)); simpl; now rewrite IH.
Qed.

Lemma settled_In s s' (requests : list (nat * jsstring)) :
  In s' (map fst (List.filter (fun d => negb (Nat.eqb (fst d) s)) requests))
  <-> In s' (map fst requests) /\ s' <> s.
Proof.
  rewrite settle_sessions, filter_In, negb_true_iff, Nat.eqb_neq. tauto.
Qed.

Lemma settled_NoDup s (requests : list (nat * jsstring)) :
  NoDup (map fst requests) ->
  NoDup
    (map fst (List.filter (fun d => negb (Nat.eqb (fst d) s)) requests)).
Proof.
  induction requests as [|d requests IH]; intros H; [exact H|].
  cbn [map] in H. apply NoDup_cons in H as [Hd H].
  cbn [List.filter]. destruct (negb (fst d =? s)); [|now apply IH].
  cbn [map]. apply NoDup_cons. split; [|now apply IH].
  rewrite list_elem_of_In, settled_In. intros [Hin _].
  apply Hd. now apply list_elem_of_In.
Qed.

Lemma NoDup_snoc {A} (l : list A) (x : A) :
  NoDup l -> ~ In x l -> NoDup (l ++ [x]).
Proof.
  induction l as [|y l IH]; intros Hl Hx; simpl.
  - apply NoDup_cons. split; [apply not_elem_of_nil | apply NoDup_nil_2].
  - apply NoDup_cons in Hl as [Hy Hl]. apply NoDup_cons. split.
    + rewrite list_elem_of_In, in_app_iff. intros [Hin|[->|[]]].
      * apply Hy. now apply list_elem_of_In.
      * apply Hx. now left.
    + apply IH; [exact Hl|]. intros Hin. apply Hx. now right.
Qed.

Lemma open_consistent modelPath st :
  Consistent st -> Consistent (openModelViewer modelPath st).
Proof.
  intros (Hd & Hflight & Hm & Hold & Hcur & Hx & Hdisposed).
  unfold Consistent. cbn -[seq]. rewrite map_app. cbn [map fst].
  repeat split.
  - apply NoDup_snoc; [exact Hd|]. intros Hin.
    apply Hflight in Hin as [Hlt _]. lia.
  - apply in_app_iff in H as [Hin|[<-|[]]]; [|lia].
    apply Hflight in Hin as [Hlt _]. lia.
  - apply in_app_iff in H as [Hin|[<-|[]]].
    + now apply Hflight in Hin as [_ Hnot].
    + intros Hin. apply Hold in Hin. lia.
  - exact Hm.
  - intros m Hin. apply Hold in Hin. lia.
  - now apply Hcur.
  - now apply Hcur.
  - exact Hx.
  - exact Hdisposed.
Qed.

Lemma close_consistent st :
  Consistent st -> Consistent (after (closeModelViewer st)).
Proof.
  intros Hst. rewrite (proj1 (ViewerProperties.closeModelViewer_leaves st)).
  exact Hst.
Qed.

Lemma settle_consistent s st : Consistent st -> Consistent (settle s st).
Proof.
  intros (Hd & Hflight & Hm & Hold & Hcur & Hx & Hdisposed).
  unfold Consistent. cbn. repeat split; try assumption.
  - now apply settled_NoDup.
  - apply settled_In in H as [Hin _]. now apply Hflight.
  - apply settled_In in H as [Hin _]. now apply Hflight.
  - now apply Hcur.
  - now apply Hcur.
Qed.

Lemma onLoad_consistent s st :
  Consistent (settle s st) -> In s (map fst (decoding st)) ->
  Consistent st -> Consistent (after (onLoad s (settle s st))).
Proof.
  intros Hsettled Hs (Hd & Hflight & Hm & Hold & Hcur & Hx & Hdisposed).
  unfold onLoad.
  destruct (existsb _ (container (settle s st))); [|exact Hsettled].
  destruct (Hflight s Hs) as [Hlt Hfresh].
  unfold Consistent. cbn. repeat split; try assumption.
  - now apply settled_NoDup.
  - apply settled_In in H as [Hin _]. now apply Hflight.
  - apply settled_In in H as [Hin Hne]. intros Hmem.
    apply in_app_iff in Hmem as [Hmem|[->|[]]]; [|congruence].
    now apply (Hflight s0).
  - now apply NoDup_snoc.
  - intros m Hin. apply in_app_iff in Hin as [Hin|[<-|[]]];
      [now apply Hold | exact Hlt].
  - injection H as <-. apply in_app_iff. right. now left.
  - injection H as <-. intros Hin. apply Hfresh. now apply Hdisposed.
  - intros m Hin. apply in_app_iff. left. now apply Hdisposed.
Qed.

Lemma step_consistent st ev :
  Consistent st -> enabled st ev = true -> Consistent (after (step st ev)).
Proof.
  intros Hst Hen. destruct ev as [modelPath| |s|s percent|s|].
  - now apply open_consistent.
  - now apply close_consistent.
  - apply onLoad_consistent; [now apply settle_consistent| |exact Hst].
    now apply (enabled_callback st (OnLoad s)).
  - exact Hst.
  - cbn [step after]. apply (settle_consistent s) in Hst.
    exact Hst.
  - cbn [step after]. now rewrite ViewerProperties.animationFrame_same.
Qed.

Lemma reachable_consistent st : Reachable st -> Consistent st.
Proof.
  induction 1 as [|st ev _ IH Hen].
  - unfold Consistent. cbn. repeat split; try apply NoDup_nil_2;
      try (intros; contradiction); discriminate.
  - now apply step_consistent.
Qed.

(** What every enabled step keeps holds along every run. *)
Lemma run_keeps (P : State -> Prop) :
  (forall st ev, P st -> enabled st ev = true -> P (after (step st ev))) ->
  forall evs st st', P st -> run evs st = Some st' -> P st'.
Proof.
  intros Hstep evs. induction evs as [|ev evs IH]; intros st st' HP Hrun.
  - injection Hrun as <-. exact HP.
  - simpl in Hrun. destruct (enabled st ev) eqn:Hen; [|discriminate].
    apply (IH _ _ (Hstep st ev HP Hen) Hrun).
Qed.

Lemma step_shape st ev :
  Consistent st -> ContainerShape st -> enabled st ev = true ->
  ContainerShape (after (step st ev)).
Proof.
  intros Hst Hshape Hen.
  destruct ev as [modelPath| |s|s percent|s|].
  - destruct Hst as (_ & _ & _ & Hold & _).
    unfold ContainerShape. cbn. left. split; [reflexivity|].
    intros Hin. apply Hold in Hin. lia.
  - cbn [step]. rewrite (proj1 (ViewerProperties.closeModelViewer_leaves st)).
    exact Hshape.
  - pose proof (enabled_callback st (OnLoad s) s eq_refl Hen) as Hs.
    destruct Hst as (_ & Hflight & _).
    destruct (Hflight s Hs) as [Hlt Hfresh].
    unfold ContainerShape in *. cbn [step]. unfold onLoad.
    change (container (settle s st)) with (container st).
    destruct (sessions st) as [|latest] eqn:Hn; [lia|].
    destruct Hshape as [[Hc Hnot]|[Hc Hin]]; rewrite Hc.
    + cbn [existsb sameNode orb]. destruct (Nat.eqb_spec s latest) as [->|Hne].
      * cbn. rewrite Hn, Nat.eqb_refl. cbn. right.
        split; [reflexivity|]. apply in_app_iff. right. now left.
      * cbn. rewrite Hn. left. now split.
    + cbn. rewrite Hn. right. now split.
  - exact Hshape.
  - exact Hshape.
  - cbn [step after]. now rewrite ViewerProperties.animationFrame_same.
Qed.

Lemma reachable_shape st : Reachable st -> ContainerShape st.
Proof.
  induction 1 as [|st ev Hreach IH Hen]; [reflexivity|].
  apply step_shape; [now apply reachable_consistent | exact IH | exact Hen].
Qed.

Lemma step_orphaned m st ev :
  Consistent st /\ Orphaned m st -> enabled st ev = true ->
  Consistent (after (step st ev)) /\ Orphaned m (after (step st ev)).
Proof.
  intros [Hst (Hin & Hcur & Hx & Hd)] Hen.
  split; [now apply step_consistent|].
  destruct ev as [modelPath| |s|s percent|s|].
  - destruct Hst as (_ & _ & _ & Hold & _). apply Hold in Hin as Hlt.
    unfold Orphaned. cbn. rewrite map_app, in_app_iff. cbn.
    repeat split; try assumption. intros [H|[H|[]]]; [tauto | lia].
  - cbn [step]. rewrite (proj1 (ViewerProperties.closeModelViewer_leaves st)).
    now repeat split.
  - pose proof (enabled_callback st (OnLoad s) s eq_refl Hen) as Hs.
    assert (Hne : s <> m) by (intros ->; tauto).
    unfold Orphaned. cbn [step]. unfold onLoad.
    destruct (existsb _ (container (settle s st))); cbn;
      repeat split; try assumption;
      try (rewrite settled_In; tauto).
    + apply in_app_iff. now left.
    + congruence.
  - now repeat split.
  - unfold Orphaned. cbn. repeat split; try assumption.
    rewrite settled_In. tauto.
  - cbn [step after]. rewrite ViewerProperties.animationFrame_same.
    now repeat split.
Qed.

(** X10: a decoded model that [currentModel] no longer tracks and that
    was not disposed of - the model of an earlier session replaced by a
    newer one - is never disposed of, and never tracked again, whatever
    happens next. *)
Theorem replaced_model_never_disposed (st st' : State) (m : nat)
    (evs : list Event) :
  Reachable st ->
  In m (sceneModels st) ->
  currentModel st <> Some m ->
  ~ In m (disposed st) ->
  run evs st = Some st' ->
  ~ In m (disposed st') /\ currentModel st' <> Some m.
Proof.
  intros Hreach Hin Hcur Hx Hrun.
  pose proof (reachable_consistent st Hreach) as Hst.
  assert (Hstart : Consistent st /\ Orphaned m st).
  { split; [exact Hst|]. repeat split; try assumption.
    destruct Hst as (_ & Hflight & _). intros Hd.
    now apply Hflight in Hd as [_ Hnot]. }
  destruct (run_keeps (fun s => Consistent s /\ Orphaned m s)
              (step_orphaned m) evs st st' Hstart Hrun)
    as [_ (_ & Hcur' & Hx' & _)].
  now split.
Qed.

Lemma replacedViewer_reachable : Reachable replacedViewer.
Proof.
  apply (ViewerProperties.run_reachable
           [OpenModelViewer (js "a.glb"); OnLoad 0;
            OpenModelViewer (js "b.glb"); OnLoad 1]
           initial _ reach_initial).
  vm_compute. reflexivity.
Qed.

Lemma replaced_model_witness :
  ~ In 0 (disposed (after (closeModelViewer replacedViewer)))
  /\ currentModel (after (closeModelViewer replacedViewer)) <> Some 0.
Proof.
  apply (replaced_model_never_disposed replacedViewer
           (after (closeModelViewer replacedViewer)) 0 [CloseModelViewer]
           replacedViewer_reachable).
  - vm_compute. left. reflexivity.
  - vm_compute. discriminate.
  - vm_compute. intros [].
  - vm_compute. reflexivity.
Defined.

(** X11: the success callback of the latest session, whenever the loader
    calls it, returns normally: it takes the loading indicator out of the
    container, which then holds the canvas alone, attaches the model and
    makes it the tracked one; the model tracked before is dropped without
    a [dispose]. *)
Theorem latest_onLoad_attaches (st : State) (s : nat) :
  Reachable st ->
  S s = sessions st ->
  enabled st (OnLoad s) = true ->
  let out := step st (OnLoad s) in
  threw out = false
  /\ container (after out) = [Canvas s]
  /\ sceneModels (after out) = sceneModels st ++ [s]
  /\ currentModel (after out) = Some s
  /\ disposed (after out) = disposed st
  /\ loadingText (after out) = loadingText st.
Proof.
  intros Hreach Hlatest Hen. cbv zeta.
  pose proof (enabled_callback st (OnLoad s) s eq_refl Hen) as Hs.
  destruct (reachable_consistent st Hreach) as (_ & Hflight & _).
  destruct (Hflight s Hs) as [_ Hfresh].
  pose proof (reachable_shape st Hreach) as Hshape.
  unfold ContainerShape in Hshape. rewrite <- Hlatest in Hshape.
  destruct Hshape as [[Hc _]|[_ Hin]]; [|contradiction].
  cbn [step]. unfold onLoad.
  change (container (settle s st)) with (container st). rewrite Hc.
  cbn. rewrite Nat.eqb_refl. cbn. now repeat split.
Qed.

Lemma latest_onLoad_witness :
  container
    (after (step (openModelViewer (js "a.glb") initial) (OnLoad 0)))
  = [Canvas 0].
Proof.
  refine (proj1 (proj2
            (latest_onLoad_attaches (openModelViewer (js "a.glb") initial)
               0 _ _ _))).
  - apply (reach_step initial (OpenModelViewer (js "a.glb")) reach_initial).
    reflexivity.
  - reflexivity.
  - reflexivity.
Defined.

Lemma step_failed s st ev :
  Failed s st -> enabled st ev = true -> Failed s (after (step st ev)).
Proof.
  intros (Hlt & Hd & Hm & Hcur & Htext) Hen.
  assert (Hother : forall s', callbackSession ev = Some s' -> s' <> s).
  { intros s' Hev ->. apply Hd. now apply (enabled_callback st ev). }
  destruct ev as [modelPath| |s'|s' percent|s'|].
  - unfold Failed. cbn. rewrite map_app, in_app_iff. cbn.
    repeat split; try assumption.
    + lia.
    + intros [H|[H|[]]]; [tauto | lia].
    + rewrite lookup_insert_ne by lia. exact Htext.
  - cbn [step]. rewrite (proj1 (ViewerProperties.closeModelViewer_leaves st)).
    now repeat split.
  - specialize (Hother s' eq_refl).
    unfold Failed. cbn [step]. unfold onLoad.
    destruct (existsb _ (container (settle s' st))); cbn;
      repeat split; try assumption;
      try (rewrite settled_In; tauto).
    + rewrite in_app_iff. intros [H|[H|[]]]; [tauto | congruence].
    + congruence.
  - specialize (Hother s' eq_refl). unfold Failed. cbn.
    repeat split; try assumption. now rewrite lookup_insert_ne.
  - specialize (Hother s' eq_refl). unfold Failed. cbn.
    repeat split; try assumption.
    + rewrite settled_In. tauto.
    + now rewrite lookup_insert_ne.
  - cbn [step after]. rewrite ViewerProperties.animationFrame_same.
    now repeat split.
Qed.

(** X12: once the error callback of a session has run, the session stays
    failed whatever happens next: its model is never attached nor tracked,
    no decode is started for it again, and its indicator keeps the text
    [Error loading model]. *)
Theorem failed_decode_stays_failed (st st' : State) (s : nat)
    (evs : list Event) :
  Reachable st ->
  enabled st (OnError s) = true ->
  run evs (after (step st (OnError s))) = Some st' ->
  ~ In s (sceneModels st')
  /\ currentModel st' <> Some s
  /\ ~ In s (map fst (decoding st'))
  /\ loadingText st' !! s = Some (js "Error loading model").
Proof.
  intros Hreach Hen Hrun.
  pose proof (enabled_callback st (OnError s) s eq_refl Hen) as Hs.
  destruct (reachable_consistent st Hreach)
    as (_ & Hflight & _ & _ & Hcur & _).
  destruct (Hflight s Hs) as [Hlt Hfresh].
  assert (Hstart : Failed s (after (step st (OnError s)))).
  { unfold Failed. cbn. repeat split.
    - exact Hlt.
    - rewrite settled_In. tauto.
    - exact Hfresh.
    - intros Hc. apply Hcur in Hc as [Hin _]. contradiction.
    - apply lookup_insert_eq. }
  destruct (run_keeps (Failed s) (step_failed s) evs _ st' Hstart Hrun)
    as (_ & Hd & Hm & Hc & Htext).
  now repeat split.
Qed.

Lemma failed_decode_witness :
  loadingText
    (openModelViewer (js "b.glb")
       (after (step (openModelViewer (js "a.glb") initial) (OnError 0))))
  !! 0
  = Some (js "Error loading model").
Proof.
  refine (proj2 (proj2 (proj2
            (failed_decode_stays_failed
               (openModelViewer (js "a.glb") initial)
               (openModelViewer (js "b.glb")
                  (after
                     (step (openModelViewer (js "a.glb") initial)
                        (OnError 0))))
               0 [OpenModelViewer (js "b.glb")] _ _ _)))).
  - apply (reach_step initial (OpenModelViewer (js "a.glb")) reach_initial).
    reflexivity.
  - vm_compute. reflexivity.
  - vm_compute. reflexivity.
Defined.

End ViewerFurther.

(** ** What the search looks at *)

Section SearchReads.

Variable toLowerCase : jsstring -> jsstring.

Lemma matches_by_tag_texts (query : jsstring) (f1 f2 : FileEntry) :
  map tag (tags f1) = map tag (tags f2) ->
  hasTags f1 && spec_matches toLowerCase query f1
  = hasTags f2 && spec_matches toLowerCase query f2.
Proof.
  intros Htags.
  assert (Hhas : hasTags f1 = hasTags f2).
  { unfold hasTags. destruct (tags f1), (tags f2); try reflexivity;
      discriminate Htags. }
  assert (Hterm : forall term,
             spec_termMatches toLowerCase f1 term
             = spec_termMatches toLowerCase f2 term).
  { intros term. unfold spec_termMatches.
    assert (Hsome : forall ts,
               existsb (fun t => includes (toLowerCase (tag t)) term) ts
               = existsb (fun x => includes (toLowerCase x) term)
                   (map tag ts)).
    { induction ts as [|t ts IH]; simpl; [reflexivity | now rewrite IH]. }
    assert (Hjoin : forall ts,
               map (fun t => toLowerCase (tag t)) ts
               = map toLowerCase (map tag ts)).
    { intros ts. now rewrite map_map. }
    now rewrite !Hsome, !Hjoin, Htags. }
  rewrite Hhas. f_equal. unfold spec_matches.
  now apply forallb_pointwise.
Qed.

(** X13: the search reads the paths and the tag texts only: two corpora
    that agree on them give the same paths for every query, whatever the
    types, colours, thumbnails and confidences of their records. *)
Theorem searchFiles_reads_tag_texts (c1 c2 : FileData) (query : jsstring) :
  map (fun item => (fst item, map tag (tags (snd item)))) (files c1)
  = map (fun item => (fst item, map tag (tags (snd item)))) (files c2) ->
  map path (searchFiles toLowerCase (Some c1) query)
  = map path (searchFiles toLowerCase (Some c2) query).
Proof.
  intros Hsame. rewrite !searchFiles_as_filter.
  destruct (falsy query); [reflexivity|].
  revert Hsame. generalize (files c2).
  induction (files c1) as [|[p1 f1] l1 IH]; intros [|[p2 f2] l2] Hsame;
    try discriminate Hsame; [reflexivity|].
  cbn [map fst snd] in Hsame. injection Hsame as -> Htags Hrest.
  cbn [List.filter snd].
  rewrite (matches_by_tag_texts query f1 f2 Htags).
  destruct (hasTags f2 && spec_matches toLowerCase query f2);
    cbn [map path fst]; [f_equal|]; now apply IH.
Qed.

End SearchReads.

Lemma searchFiles_reads_witness :
  map path
    (searchFiles toLowerCaseAscii
       (Some
          (mkData
             [(js "b.png",
               mkFile (js "image") [mkTag (js "dog") (js "90%")]
                 (Some (js "blue")) None)]))
       (js "dog blue"))
  = map path
      (searchFiles toLowerCaseAscii
         (Some
            (mkData
               [(js "b.png",
                 mkFile (js "text") [mkTag (js "dog") (js "1")] None None)]))
         (js "dog blue")).
Proof.
  apply (searchFiles_reads_tag_texts toLowerCaseAscii). reflexivity.
Defined.
